(** * computer_use_demo/tools/computer.py: the [ComputerTool] adapter

    A shallow embedding of [ComputerTool] and of the Python arithmetic it
    relies on.

    - Python [int] is [Z].
    - Python [float] is IEEE 754 binary64.  A finite float is represented by
      the rational it denotes; every operation rounds the exact result to the
      nearest representable value, ties to even, with gradual underflow and
      overflow to infinity written out in [rnd].  The sign of a zero is not
      kept: the program only ever passes floats to [round], to [/] as a
      divisor (where any zero raises) and to [*], none of which can observe
      it.
    - Exceptions are values of [exn]; a computation that can raise returns a
      [result].
    - The desktop (pointer, keyboard, screen grabber, file system) is an
      explicit [world] threaded through [__call__]. *)

From Stdlib Require Import ZArith QArith Qabs Qpower Lia Lqa List Bool String Ascii.
From Stdlib Require Import DecimalString.
From Stdlib Require SpecFloat.
Import ListNotations.

Local Open Scope Z_scope.

(** ** Binary64 arithmetic *)

Module Float64.

(** Mantissa width and exponent range of binary64. *)
Definition prec : Z := 53.
Definition emin : Z := -1074.
Definition emax : Z := 1024.

Inductive float : Type :=
| Fin (q : Q)
| Inf (neg : bool)
| NaN.

Definition pow2 (k : Z) : Q := Qpower 2 k.

(** Nearest integer, ties to the even one. On a float this is Python's
    one-argument [round]. *)
Definition round_half_even (q : Q) : Z :=
  let n := Qnum q in
  let d := Zpos (Qden q) in
  let k := n / d in
  let r := n mod d in
  match 2 * r ?= d with
  | Lt => k
  | Gt => k + 1
  | Eq => if Z.even k then k else k + 1
  end.

(** [ilog2 q] is the integer [l] with [2^l <= q < 2^(l+1)], for [0 < q]. *)
Definition ilog2 (q : Q) : Z :=
  let n := Qnum q in
  let d := Zpos (Qden q) in
  let l := Z.log2 n - Z.log2 d in
  if Qle_bool (pow2 l) q then l else l - 1.

(** Exponent of the unit in the last place of a positive rational. *)
Definition ulp_exp (a : Q) : Z := Z.max (ilog2 a - (prec - 1)) emin.

(** Round a rational to binary64, to nearest, ties to even. *)
Definition rnd (q : Q) : float :=
  match Qnum q with
  | 0 => Fin 0
  | _ =>
      let a := Qabs q in
      let e := ulp_exp a in
      let m := round_half_even (a / pow2 e) in
      let v := Qred (inject_Z m * pow2 e) in
      if Qle_bool (pow2 emax) v then Inf (Qnum q <? 0)
      else Fin (if Qnum q <? 0 then Qopp v else v)
  end.

Definition is_zero (q : Q) : bool := Qnum q =? 0.
Definition is_neg (q : Q) : bool := Qnum q <? 0.

(** IEEE division of two floats, divisor not zero. *)
Definition div (a b : float) : float :=
  match a, b with
  | NaN, _ | _, NaN => NaN
  | Inf _, Inf _ => NaN
  | Inf s, Fin q => Inf (xorb s (is_neg q))
  | Fin _, Inf _ => Fin 0
  | Fin p, Fin q => rnd (p / q)
  end.

(** IEEE multiplication. *)
Definition mul (a b : float) : float :=
  match a, b with
  | NaN, _ | _, NaN => NaN
  | Inf s, Inf t => Inf (xorb s t)
  | Inf s, Fin q | Fin q, Inf s =>
      if is_zero q then NaN else Inf (xorb s (is_neg q))
  | Fin p, Fin q => rnd (p * q)
  end.

(** The value of a [spec_float] of the Standard Library in this
    representation, used to compare [rnd] with the library's own
    specification of binary64 on concrete operands. *)
Definition of_spec (f : SpecFloat.spec_float) : float :=
  match f with
  | SpecFloat.S754_zero _ => Fin 0
  | SpecFloat.S754_infinity s => Inf s
  | SpecFloat.S754_nan => NaN
  | SpecFloat.S754_finite s m e =>
      let v := Qred (inject_Z (Zpos m) * pow2 e) in
      Fin (if s then Qopp v else v)
  end.

End Float64.

Import Float64.

(** ** Python values, exceptions and results *)

#[warnings="-register-all"]
Inductive pyval : Type :=
| PNone
| PBool (b : bool)
| PInt (z : Z)
| PFloat (f : float)
| PStr (s : string)
| PList (l : list pyval)
| PTuple (l : list pyval).

(** An f-string before rendering: literal text and interpolated values. *)
Inductive fpart : Type :=
| FLit (s : string)
| FVal (v : pyval).

Definition fstring := list fpart.

Inductive exn : Type :=
| ToolError (message : fstring)
| ZeroDivisionError
| OverflowError
| ValueError.

Inductive result (A : Type) : Type :=
| Ok (a : A)
| Raise (e : exn).

Arguments Ok {A} a.
Arguments Raise {A} e.

Definition rbind {A B} (r : result A) (k : A -> result B) : result B :=
  match r with
  | Ok a => k a
  | Raise e => Raise e
  end.

Declare Scope result_scope.
Delimit Scope result_scope with result.
Notation "x <- r ;; k" := (rbind r (fun x => k))
  (at level 61, r at next level, right associativity) : result_scope.

(** ** Python's numeric operators on the operand types the program uses *)

(** [float(z)] as applied implicitly to an [int] operand of a float
    operation: correctly rounded, [OverflowError] beyond the float range. *)
Definition float_of_int (z : Z) : result float :=
  match rnd (inject_Z z) with
  | Inf _ => Raise OverflowError
  | f => Ok f
  end.

(** [a / b] on two ints: the correctly rounded quotient. *)
Definition int_truediv (a b : Z) : result float :=
  match b with
  | 0 => Raise ZeroDivisionError
  | Zpos d => match rnd (a # d) with
              | Inf _ => Raise OverflowError
              | f => Ok f
              end
  | Zneg d => match rnd (- a # d) with
              | Inf _ => Raise OverflowError
              | f => Ok f
              end
  end.

(** [a / b] on two floats. *)
Definition float_truediv (a b : float) : result float :=
  match b with
  | Fin q => if is_zero q then Raise ZeroDivisionError else Ok (div a b)
  | _ => Ok (div a b)
  end.

(** [a * b] on two floats. *)
Definition float_mul (a b : float) : result float := Ok (mul a b).

(** [round(f)]. *)
Definition py_round (f : float) : result Z :=
  match f with
  | Fin q => Ok (round_half_even q)
  | Inf _ => Raise OverflowError
  | NaN => Raise ValueError
  end.

(** ** The tool *)

Definition IMAGE_MAX_WIDTH : Z := 1200.

Inductive ScalingSource : Type := COMPUTER | API.

Record ComputerTool : Type := {
  width : Z;
  height : Z;
  display_num : option Z;
  _screenshot_delay : float;
  _scaling_enabled : bool
}.

Section ScaleCoordinates.

Local Open Scope result_scope.

Variable self : ComputerTool.

(** [i / f] and [i * f] for an int [i] and a float [f], and [f / i]: the
    int operand is converted first. *)
Definition int_div_float (i : Z) (f : float) : result float :=
  g <- float_of_int i ;; float_truediv g f.

Definition float_div_int (f : float) (i : Z) : result float :=
  g <- float_of_int i ;; float_truediv f g.

Definition int_mul_float (i : Z) (f : float) : result float :=
  g <- float_of_int i ;; float_mul g f.

(** The pair [(x_scaling_factor, y_scaling_factor)], computed in the order
    of the source. *)
Definition scaling_factors : result (float * float) :=
  ratio <- int_truediv (width self) (height self) ;;
  target_height <- int_div_float IMAGE_MAX_WIDTH ratio ;;
  x_scaling_factor <- int_truediv IMAGE_MAX_WIDTH (width self) ;;
  y_scaling_factor <- float_div_int target_height (height self) ;;
  Ok (x_scaling_factor, y_scaling_factor).

Definition out_of_bounds (x y : Z) : exn :=
  ToolError [FLit "Coordinates "; FVal (PInt x); FLit ", "; FVal (PInt y);
             FLit " are out of bounds"].

Definition scale_coordinates (source : ScalingSource) (x y : Z)
  : result (Z * Z) :=
  if negb (_scaling_enabled self) then Ok (x, y)
  else
    f <- scaling_factors ;;
    let (x_scaling_factor, y_scaling_factor) := f in
    match source with
    | API =>
        if (x >? width self) || (y >? height self)
        then Raise (out_of_bounds x y)
        else
          (* scale up *)
          a <- int_div_float x x_scaling_factor ;;
          x' <- py_round a ;;
          b <- int_div_float y y_scaling_factor ;;
          y' <- py_round b ;;
          Ok (x', y')
    | COMPUTER =>
        (* scale down *)
        a <- int_mul_float x x_scaling_factor ;;
        x' <- py_round a ;;
        b <- int_mul_float y y_scaling_factor ;;
        y' <- py_round b ;;
        Ok (x', y')
    end.

End ScaleCoordinates.

(** The instance [__init__] builds when WIDTH, HEIGHT and DISPLAY_NUM are
    unset. *)
Definition default_tool : ComputerTool :=
  {| width := 1920; height := 1080; display_num := None;
     _screenshot_delay := Fin 2; _scaling_enabled := true |}.

Definition with_resolution (w h : Z) : ComputerTool :=
  {| width := w; height := h; display_num := None;
     _screenshot_delay := Fin 2; _scaling_enabled := true |}.


(** ** Strings

    A [str] is modelled over 7-bit ASCII text: on the other bytes
    [lower] and [strip] are the identity. *)

Definition in_range (lo hi : N) (c : ascii) : bool :=
  ((lo <=? N_of_ascii c) && (N_of_ascii c <=? hi))%N.

(** [str.isspace] on ASCII: TAB to CR, FS to US and the space. *)
Definition isspace (c : ascii) : bool := in_range 9 13 c || in_range 28 32 c.

Definition lower_char (c : ascii) : ascii :=
  if in_range 65 90 c then ascii_of_N (N_of_ascii c + 32) else c.

Fixpoint lower (s : string) : string :=
  match s with
  | EmptyString => EmptyString
  | String c s' => String (lower_char c) (lower s')
  end.

Fixpoint lstrip_chars (l : list ascii) : list ascii :=
  match l with
  | c :: l' => if isspace c then lstrip_chars l' else l
  | [] => []
  end.

Definition strip (s : string) : string :=
  string_of_list_ascii
    (rev (lstrip_chars (rev (lstrip_chars (list_ascii_of_string s))))).

(** [sep in s] for a one-character [sep]. *)
Fixpoint contains (sep : ascii) (s : string) : bool :=
  match s with
  | EmptyString => false
  | String c s' => Ascii.eqb c sep || contains sep s'
  end.

(** [s.split(sep)] for a one-character [sep]. *)
Fixpoint split (sep : ascii) (s : string) : list string :=
  match s with
  | EmptyString => [EmptyString]
  | String c s' =>
      if Ascii.eqb c sep then EmptyString :: split sep s'
      else match split sep s' with
           | piece :: rest => String c piece :: rest
           | [] => [String c EmptyString]
           end
  end.

(** [str(z)] for an int. *)
Definition str_of_int (z : Z) : string := NilEmpty.string_of_int (Z.to_int z).

(** ** The desktop *)

(** The calls made on [pyautogui], [asyncio], [ImageGrab] and the image, in
    the order they are made. *)
Inductive event : Type :=
| moveTo (x y : Z)
| dragTo (x y : Z)
| hotkey (keys : list string)
| press (key : string)
| write (text : string) (interval : float)
| click
| rightClick
| middleClick
| doubleClick
| sleep (delay : float)
| grab
| resize (w h : Z)
| save.

(** [position] is what [pyautogui.position()] reports; [stored k] is the
    base64 text of the file the [k]-th capture leaves behind, or [None] when
    no file exists after the save. *)
Record world : Type := {
  position : Z * Z;
  stored : nat -> option string;
  captures : nat;
  events : list event
}.

Definition emit (e : event) (w : world) : world :=
  {| position := position w; stored := stored w; captures := captures w;
     events := events w ++ [e] |}.

Definition next_capture (w : world) : world :=
  {| position := position w; stored := stored w; captures := S (captures w);
     events := events w |}.

(** Computations over the desktop that may raise. *)
Definition M (A : Type) : Type := world -> result A * world.

Definition ret {A} (a : A) : M A := fun w => (Ok a, w).
Definition raise {A} (e : exn) : M A := fun w => (Raise e, w).
Definition lift {A} (r : result A) : M A := fun w => (r, w).
Definition call (e : event) : M unit := fun w => (Ok tt, emit e w).

Definition bind {A B} (m : M A) (k : A -> M B) : M B :=
  fun w => match m w with
           | (Ok a, w') => k a w'
           | (Raise e, w') => (Raise e, w')
           end.

Declare Scope M_scope.
Delimit Scope M_scope with M.
Notation "x <- m ;; k" := (bind m (fun x => k))
  (at level 61, m at next level, right associativity) : M_scope.
Notation "m ;; k" := (bind m (fun _ => k))
  (at level 61, right associativity) : M_scope.

(** Modelled from the spec: [ToolResult] of tools/base.py, which is not
    among the sources; the spec gives a result as
    [{output?: string, base64_image?: string}]. [ToolError], from the same
    file, is the exception [ToolError] of [exn], carrying its message. *)
Record ToolResult : Type := {
  output : option string;
  base64_image : option string
}.

(** ** The dispatcher *)

(** [isinstance(v, int)]: [bool] is a subclass of [int]. *)
Definition is_int (v : pyval) : bool :=
  match v with
  | PInt _ | PBool _ => true
  | _ => false
  end.

(** The value of an int; a [bool] element is used as the int it is (an
    out-of-bounds message then shows that int). *)
Definition int_value (v : pyval) : Z :=
  match v with
  | PInt z => z
  | PBool b => Z.b2z b
  | _ => 0
  end.

(** [isinstance(i, int) and i >= 0]. *)
Definition is_nonneg_int (v : pyval) : bool :=
  is_int v && (int_value v >=? 0).

Definition is_None (v : pyval) : bool :=
  match v with
  | PNone => true
  | _ => false
  end.

(** [isinstance(coordinate, list) and len(coordinate) == 2]. *)
Definition is_list_of_two (v : pyval) : bool :=
  match v with
  | PList l => (List.length l =? 2)%nat
  | _ => false
  end.

(** The items a [for] loop over the value visits. *)
Definition items (v : pyval) : list pyval :=
  match v with
  | PList l | PTuple l => l
  | _ => []
  end.

Definition item (v : pyval) (i : nat) : pyval := nth i (items v) PNone.

Section Dispatch.

Local Open Scope M_scope.
Local Open Scope string_scope.

Variable self : ComputerTool.

(** [ToolResult(base64_image=...)] of the capture, or
    ["Failed to take screenshot"]. *)
Definition screenshot : M ToolResult :=
  call grab ;;
  (if _scaling_enabled self
   then xy <- lift (scale_coordinates self COMPUTER (width self) (height self)) ;;
        call (resize (fst xy) (snd xy))
   else ret tt) ;;
  call save ;;
  fun w =>
    match stored w (captures w) with
    | Some image =>
        (Ok {| output := None; base64_image := Some image |}, next_capture w)
    | None =>
        (Raise (ToolError [FLit "Failed to take screenshot"]), next_capture w)
    end.

Definition take_action_screenshot : M ToolResult :=
  call (sleep (_screenshot_delay self)) ;;
  screenshot_result <- screenshot ;;
  ret {| output := None; base64_image := base64_image screenshot_result |}.

Definition invalid_action (action : string) : M ToolResult :=
  raise (ToolError [FLit "Invalid action: "; FVal (PStr action)]).

(** The third [if] of [__call__] and the final [raise]. *)
Definition call_bare (action : string) (text coordinate : pyval)
  : M ToolResult :=
  if existsb (String.eqb action)
       ["left_click"; "right_click"; "double_click"; "middle_click";
        "screenshot"; "cursor_position"]
  then
    if negb (is_None text)
    then raise (ToolError [FLit "text is not accepted for "; FVal (PStr action)])
    else if negb (is_None coordinate)
    then raise (ToolError [FLit "coordinate is not accepted for ";
                           FVal (PStr action)])
    else if String.eqb action "screenshot" then screenshot
    else if String.eqb action "cursor_position" then
      fun w =>
        let (x, y) := position w in
        (scaled <- lift (scale_coordinates self COMPUTER x y) ;;
         ret {| output := Some ("X=" ++ str_of_int (fst scaled) ++
                                ",Y=" ++ str_of_int (snd scaled));
                base64_image := None |}) w
    else if String.eqb action "left_click" then
      call click ;; take_action_screenshot
    else if String.eqb action "right_click" then
      call rightClick ;; take_action_screenshot
    else if String.eqb action "middle_click" then
      call middleClick ;; take_action_screenshot
    else if String.eqb action "double_click" then
      call doubleClick ;; take_action_screenshot
    else invalid_action action
  else invalid_action action.

(** The second [if] of [__call__] and what follows it. *)
Definition call_text (action : string) (text coordinate : pyval)
  : M ToolResult :=
  if existsb (String.eqb action) ["key"; "type"]
  then
    if is_None text
    then raise (ToolError [FLit "text is required for "; FVal (PStr action)])
    else if negb (is_None coordinate)
    then raise (ToolError [FLit "coordinate is not accepted for ";
                           FVal (PStr action)])
    else
      match text with
      | PStr t =>
          if String.eqb action "key" then
            (if contains "+" t
             then (* Handle hotkey combinations *)
               call (hotkey (map (fun key => lower (strip key)) (split "+" t)))
             else call (press (lower t))) ;;
            take_action_screenshot
          else if String.eqb action "type" then
            call (write t (rnd (1 # 100))) ;; take_action_screenshot
          else call_bare action text coordinate
      | _ => raise (ToolError [FVal text; FLit " must be a string"])
      end
  else call_bare action text coordinate.

Definition __call__ (action : string) (text coordinate : pyval)
  : M ToolResult :=
  if existsb (String.eqb action) ["mouse_move"; "left_click_drag"]
  then
    if is_None coordinate
    then raise (ToolError [FLit "coordinate is required for ";
                           FVal (PStr action)])
    else if negb (is_None text)
    then raise (ToolError [FLit "text is not accepted for "; FVal (PStr action)])
    else if negb (is_list_of_two coordinate)
    then raise (ToolError [FVal coordinate; FLit " must be a tuple of length 2"])
    else if negb (forallb is_nonneg_int (items coordinate))
    then raise (ToolError [FVal coordinate;
                           FLit " must be a tuple of non-negative ints"])
    else
      xy <- lift (scale_coordinates self API
                    (int_value (item coordinate 0))
                    (int_value (item coordinate 1))) ;;
      if String.eqb action "mouse_move" then
        call (moveTo (fst xy) (snd xy)) ;; take_action_screenshot
      else if String.eqb action "left_click_drag" then
        call (dragTo (fst xy) (snd xy)) ;; take_action_screenshot
      else call_text action text coordinate
  else call_text action text coordinate.

(** ** The capability descriptor *)

Record ComputerToolOptions : Type := {
  display_height_px : Z;
  display_width_px : Z;
  display_number : option Z
}.

Definition options : result ComputerToolOptions :=
  (wh <- scale_coordinates self COMPUTER (width self) (height self) ;;
   Ok {| display_width_px := fst wh;
         display_height_px := snd wh;
         display_number := display_num self |})%result.

(** [BetaToolComputerUse20241022Param]: the fields of [to_params]. *)
Record ToolParam : Type := {
  name : string;
  type : string;
  param_options : ComputerToolOptions
}.

Definition to_params : result ToolParam :=
  (o <- options ;;
   Ok {| name := "computer"; type := "computer_20241022";
         param_options := o |})%result.

End Dispatch.

(** ** Constants of the statements *)

(** Half an ulp of 1: the relative error of one rounding. *)
Definition eps : Q := 1 # 9007199254740992.

(** Bounds within which every intermediate value of the scaling is a normal
    float. *)
Definition tiny : Q := Eval vm_compute in pow2 (-200).
Definition huge : Q := Eval vm_compute in pow2 200.

(** The largest screen dimension the statements about scaling cover. *)
Definition dim_max : Z := 2 ^ 48.

(** The two conversions in sequence: API space to computer space and back. *)
Definition roundtrip (self : ComputerTool) (x y : Z) : result (Z * Z) :=
  (c <- scale_coordinates self API x y ;;
   scale_coordinates self COMPUTER (fst c) (snd c))%result.

Definition within_one (a b : Z) : Prop := Z.abs (a - b) <= 1.

(** The round trip succeeds and returns each component within one pixel of
    where it started. *)
Definition roundtrip_ok (self : ComputerTool) (x y : Z) : Prop :=
  exists x' y',
    roundtrip self x y = Ok (x', y') /\ within_one x' x /\ within_one y' y.

(** The factor both directions would use in exact arithmetic. *)
Definition exact_factor (self : ComputerTool) : Q :=
  inject_Z IMAGE_MAX_WIDTH / inject_Z (width self).

(** A coordinate counts as a pair when it is a sequence of exactly two
    items, list or tuple. *)
Definition is_pair (v : pyval) : bool :=
  match v with
  | PList [_; _] | PTuple [_; _] => true
  | _ => false
  end.

(** The coordinate field is absent, is not a pair, holds a negative integer
    or holds something that is not an integer. *)
Definition malformed_coordinate (c : pyval) : Prop :=
  c = PNone \/
  is_pair c = false \/
  (exists z, In (PInt z) (items c) /\ z < 0) \/
  (exists v, In v (items c) /\ is_int v = false).

(** The values of the [Action] literal type. *)
Definition ACTIONS : list string :=
  ["key"; "type"; "mouse_move"; "left_click"; "left_click_drag";
   "right_click"; "middle_click"; "double_click"; "screenshot";
   "cursor_position"]%string.

(** [sep.join(pieces)] for a one-character [sep]. *)
Fixpoint join (sep : ascii) (pieces : list string) : string :=
  match pieces with
  | [] => EmptyString
  | [piece] => piece
  | piece :: rest => (piece ++ String sep (join sep rest))%string
  end.

(** [s.count(sep)] for a one-character [sep]. *)
Fixpoint count (sep : ascii) (s : string) : nat :=
  match s with
  | EmptyString => O
  | String c s' => ((if Ascii.eqb c sep then 1 else 0) + count sep s')%nat
  end.

(** The call a [key] action makes on the keyboard for the text [t]. *)
Definition key_event (t : string) : event :=
  if contains "+" t
  then hotkey (map (fun key => lower (strip key)) (split "+" t))
  else press (lower t).

(** A desktop with the pointer at the centre of a 1920x1080 screen, on which
    every capture succeeds. *)
Definition a_world : world :=
  {| position := (960, 540); stored := fun _ => Some "aW1hZ2U="%string;
     captures := 0; events := [] |}.

Definition spec_of_int (z : positive) : SpecFloat.spec_float :=
  SpecFloat.S754_finite false z 0.

(** ** Further definitions: the rest of the module *)

(** The largest screen dimension for which the round trip is shown to be
    exact. *)
Definition exact_max : Z := 2 ^ 32.

(** The height an exactly aspect-preserving scaling would give. *)
Definition exact_height (self : ComputerTool) : Q :=
  (inject_Z IMAGE_MAX_WIDTH * inject_Z (height self) / inject_Z (width self))%Q.

(** The two conversions in the other order: computer space to API space and
    back. *)
Definition reverse_roundtrip (self : ComputerTool) (x y : Z) : result (Z * Z) :=
  (c <- scale_coordinates self COMPUTER x y ;;
   scale_coordinates self API (fst c) (snd c))%result.

(** [range(start, stop, step)] as the list it enumerates. *)
Definition range (start stop step : Z) : result (list Z) :=
  if step =? 0 then Raise ValueError
  else
    let n := if 0 <? step then (stop - start + step - 1) / step
             else (start - stop - step - 1) / (- step) in
    Ok (map (fun k => start + Z.of_nat k * step) (seq 0 (Z.to_nat n))).

(** [len(s)]. *)
Definition len (s : string) : Z := Z.of_nat (String.length s).

(** [s[i:j]]: a negative index counts from the end, and both ends are clipped
    to the string. *)
Definition slice (s : string) (i j : Z) : string :=
  let clip k := if k <? 0 then Z.max 0 (k + len s) else Z.min k (len s) in
  if clip i <? clip j
  then substring (Z.to_nat (clip i)) (Z.to_nat (clip j - clip i)) s
  else EmptyString.

Definition chunks (s : string) (chunk_size : Z) : result (list string) :=
  (r <- range 0 (len s) chunk_size ;;
   Ok (map (fun i => slice s i (i + chunk_size)) r))%result.

(** The concatenation of a list of strings. *)
Definition flatten (l : list string) : string :=
  fold_right String.append EmptyString l.

(** What [__init__] leaves: the instance, the exception a conversion
    raised, or the failed assertion with its message. *)
Inductive construction : Type :=
| Built (tool : ComputerTool)
| Raised (e : exn)
| AssertionError (message : string).

Section Init.

Local Open Scope string_scope.

(** [os.getenv] on the process environment, and [int] on a [str]: both are
    inputs of the model. *)
Variable getenv : string -> option string.
Variable int_of_str : string -> result Z.

(** [int(os.getenv(name) or default)]: an unset and an empty variable are
    both falsy, and [int] of the int [default] is [default]. *)
Definition int_of_env_or (name : string) (default : Z) : result Z :=
  match getenv name with
  | None | Some EmptyString => Ok default
  | Some value => int_of_str value
  end.

(** The instance attributes [__init__] sets; [_screenshot_delay] and
    [_scaling_enabled] are the class attributes. *)
Definition __init__ : construction :=
  match int_of_env_or "WIDTH" 1920 with
  | Raise e => Raised e
  | Ok w =>
      match int_of_env_or "HEIGHT" 1080 with
      | Raise e => Raised e
      | Ok h =>
          if (w =? 0)%Z || (h =? 0)%Z
          then AssertionError "WIDTH, HEIGHT must be set"
          else
            match getenv "DISPLAY_NUM" with
            | Some value =>
                match int_of_str value with
                | Raise e => Raised e
                | Ok n =>
                    Built {| width := w; height := h; display_num := Some n;
                             _screenshot_delay := Fin 2;
                             _scaling_enabled := true |}
                end
            | None =>
                Built {| width := w; height := h; display_num := None;
                         _screenshot_delay := Fin 2;
                         _scaling_enabled := true |}
            end
      end
  end.

End Init.

(** An environment with nothing set, one with only an empty DISPLAY_NUM, and
    a conversion that accepts no string: instances for the examples. *)
Definition no_environment : string -> option string := fun _ => None.

Definition empty_display_num : string -> option string :=
  fun name => if String.eqb name "DISPLAY_NUM" then Some ""%string else None.

Definition refuse_all : string -> result Z := fun _ => Raise ValueError.

(** A desktop on which no capture leaves a file. *)
Definition a_world_without_files : world :=
  {| position := (960, 540); stored := fun _ => None;
     captures := 0; events := [] |}.

(** A computation that takes no capture: it leaves everything about the
    desktop as it was, except that it may add to the log. *)
Definition quiet {A} (m : M A) : Prop :=
  forall w, position (snd (m w)) = position w /\
            stored (snd (m w)) = stored w /\
            captures (snd (m w)) = captures w /\
            exists l, events (snd (m w)) = events w ++ l.

(** A computation that takes at most one capture. *)
Definition framed {A} (m : M A) : Prop :=
  forall w, position (snd (m w)) = position w /\
            stored (snd (m w)) = stored w /\
            (captures w <= captures (snd (m w)) <= S (captures w))%nat /\
            exists l, events (snd (m w)) = events w ++ l.

(** A computation whose result, when there is one, is the image of the next
    capture and nothing else. *)
Definition imaging (m : M ToolResult) : Prop :=
  forall w r w', m w = (Ok r, w') ->
    output r = None /\
    base64_image r = stored w (captures w) /\
    base64_image r <> None /\
    captures w' = S (captures w).

(** What a successful call returns, for [action]. *)
Definition shaped (action : string) (m : M ToolResult) : Prop :=
  forall w r w', m w = (Ok r, w') ->
    (action = "cursor_position"%string /\ base64_image r = None /\
     (exists s, output r = Some s) /\ w' = w) \/
    (output r = None /\ base64_image r = stored w (captures w) /\
     base64_image r <> None /\ captures w' = S (captures w)).

(** A key name as [hotkey] gets it after the clean-up: no [+] in it, and
    neither lower-casing nor stripping changes it. *)
Definition normalised (key : string) : Prop :=
  contains "+" key = false /\ lower key = key /\ strip key = key.

(** The list starts with a character that is not white space, or is empty. *)
Definition starts_clean (l : list ascii) : Prop :=
  match l with
  | [] => True
  | c :: _ => isspace c = false
  end.

(** ** Properties of the binary64 model *)

Module Float64Facts.

Local Open Scope Q_scope.

Lemma round_half_even_bounds (q : Q) :
  inject_Z (round_half_even q) - (1 # 2) <= q /\
  q <= inject_Z (round_half_even q) + (1 # 2).
Proof.
  destruct q as [n d]. unfold round_half_even. cbn [Qnum Qden].
  pose proof (Z.div_mod n (Zpos d) ltac:(lia)) as Hdm.
  pose proof (Z.mod_pos_bound n (Zpos d) ltac:(lia)) as Hr.
  set (k := (n / Zpos d)%Z) in *. set (r := (n mod Zpos d)%Z) in *.
  destruct (Z.compare_spec (2 * r) (Zpos d)) as [He | Hl | Hg];
    [destruct (Z.even k) | | ];
    unfold Qle, Qminus, Qplus, Qopp, inject_Z; cbn [Qnum Qden]; split; nia.
Qed.

Lemma pow2_pos (k : Z) : 0 < pow2 k.
Proof. apply Qpower_0_lt. reflexivity. Qed.

Lemma pow2_add (a b : Z) : pow2 (a + b) == pow2 a * pow2 b.
Proof. apply Qpower_plus. discriminate. Qed.

Lemma pow2_le (a b : Z) : (a <= b)%Z -> pow2 a <= pow2 b.
Proof. intros H. apply Qpower_le_compat_l; [exact H | discriminate]. Qed.

Lemma pow2_lt_inv (a b : Z) : pow2 a < pow2 b -> (a < b)%Z.
Proof. intros H. apply (Qpower_lt_compat_l_inv 2); [exact H | reflexivity]. Qed.

Lemma pow2_of_Zpow (k : Z) : (0 <= k)%Z -> inject_Z (2 ^ k) == pow2 k.
Proof. intros H. unfold pow2. now rewrite Zpower_Qpower. Qed.

Lemma inject_Z_log2_bounds (n : Z) :
  (0 < n)%Z ->
  pow2 (Z.log2 n) <= inject_Z n /\ inject_Z n < pow2 (Z.log2 n + 1).
Proof.
  intros Hn. pose proof (Z.log2_spec n Hn) as [Hlo Hhi].
  pose proof (Z.log2_nonneg n) as Hl.
  rewrite <- !pow2_of_Zpow by lia. rewrite <- Zle_Qle, <- Zlt_Qlt.
  replace (Z.log2 n + 1)%Z with (Z.succ (Z.log2 n)) by lia. lia.
Qed.

(** [ilog2] is the floor of the binary logarithm. *)
Lemma ilog2_spec (q : Q) :
  0 < q -> pow2 (ilog2 q) <= q /\ q < pow2 (ilog2 q + 1).
Proof.
  intros Hq. destruct q as [n d].
  assert (Hn : (0 < n)%Z) by (unfold Qlt in Hq; cbn in Hq; lia).
  destruct (inject_Z_log2_bounds n Hn) as [Hn1 Hn2].
  destruct (inject_Z_log2_bounds (Zpos d) ltac:(lia)) as [Hd1 Hd2].
  set (ln := Z.log2 n) in *. set (ld := Z.log2 (Zpos d)) in *.
  assert (Hd0 : 0 < inject_Z (Zpos d)) by reflexivity.
  assert (Hlow : pow2 (ln - ld - 1) <= n # d).
  { rewrite (Qmake_Qdiv n d). apply Qle_shift_div_l; [exact Hd0 |].
    apply Qle_trans with (pow2 (ln - ld - 1) * pow2 (ld + 1)).
    - apply Qmult_le_l; [apply pow2_pos | apply Qlt_le_weak, Hd2].
    - rewrite <- pow2_add. replace (ln - ld - 1 + (ld + 1))%Z with ln by lia.
      exact Hn1. }
  assert (Hup : n # d < pow2 (ln - ld + 1)).
  { rewrite (Qmake_Qdiv n d). apply Qlt_shift_div_r; [exact Hd0 |].
    apply Qlt_le_trans with (pow2 (ln - ld + 1) * pow2 ld).
    - rewrite <- pow2_add. replace (ln - ld + 1 + ld)%Z with (ln + 1)%Z by lia.
      exact Hn2.
    - apply Qmult_le_l; [apply pow2_pos | exact Hd1]. }
  unfold ilog2. cbn [Qnum Qden]. fold ln ld.
  destruct (Qle_bool (pow2 (ln - ld)) (n # d)) eqn:Hb.
  - apply Qle_bool_iff in Hb. split; assumption.
  - split; [exact Hlow |].
    replace (ln - ld - 1 + 1)%Z with (ln - ld)%Z by lia.
    apply Qnot_le_lt. intros Hc. apply Qle_bool_iff in Hc. congruence.
Qed.

(** A positive rational in the normal range rounds to a finite float
    within relative error [eps]. *)
Lemma rnd_accurate (q : Q) :
  pow2 (-1022) <= q -> q < pow2 1023 ->
  exists v, rnd q = Fin v /\ (1 - eps) * q <= v /\ v <= (1 + eps) * q.
Proof.
  intros Hlo Hhi.
  assert (Hq : 0 < q) by (eapply Qlt_le_trans; [apply (pow2_pos (-1022)) | exact Hlo]).
  destruct (ilog2_spec q Hq) as [Hl1 Hl2].
  assert (Hl3 : (-1022 < ilog2 q + 1)%Z).
  { apply pow2_lt_inv. eapply Qle_lt_trans; eassumption. }
  assert (Hl4 : (ilog2 q < 1023)%Z).
  { apply pow2_lt_inv. eapply Qle_lt_trans; eassumption. }
  destruct q as [[|p|p] d]; try (exfalso; revert Hq; unfold Qlt; cbn; lia).
  unfold rnd. cbn [Qnum]. change (Qabs (Zpos p # d)) with (Zpos p # d).
  change (Zpos p <? 0)%Z with false. cbv beta iota zeta.
  unfold ulp_exp, prec, emin, emax.
  set (q := Zpos p # d) in *. set (l := ilog2 q) in *.
  rewrite Z.max_l by lia.
  set (e := (l - (53 - 1))%Z). set (E := pow2 e).
  assert (HE : 0 < E) by apply pow2_pos.
  set (t := q / E).
  destruct (round_half_even_bounds t) as [Hm1 Hm2].
  set (m := inject_Z (round_half_even t)) in *.
  assert (HtE : t * E == q).
  { unfold t. field. intros Hc. rewrite Hc in HE. discriminate. }
  assert (HlE : pow2 l == E * (4503599627370496 # 1)).
  { replace l with (e + 52)%Z by (unfold e; lia). rewrite pow2_add. reflexivity. }
  assert (Hl5 : pow2 (l + 1) <= pow2 1023) by (apply pow2_le; lia).
  assert (Hl6 : pow2 (l + 1) == pow2 l * 2) by (rewrite pow2_add; reflexivity).
  assert (H1024 : pow2 1024 == pow2 1023 * 2) by reflexivity.
  assert (Ha : m * E - q <= (1 # 2) * E).
  { rewrite <- HtE. setoid_replace (m * E - t * E) with ((m - t) * E) by ring.
    apply Qmult_le_compat_r; [lra | apply Qlt_le_weak, HE]. }
  assert (Hb : q - m * E <= (1 # 2) * E).
  { rewrite <- HtE. setoid_replace (t * E - m * E) with ((t - m) * E) by ring.
    apply Qmult_le_compat_r; [lra | apply Qlt_le_weak, HE]. }
  rewrite HlE in Hl1, Hl6.
  assert (Hv1 : (1 - eps) * q <= m * E) by (unfold eps; lra).
  assert (Hv2 : m * E <= (1 + eps) * q) by (unfold eps; lra).
  destruct (Qle_bool (pow2 1024) (Qred (m * E))) eqn:Hov.
  - exfalso. apply Qle_bool_iff in Hov. rewrite Qred_correct in Hov.
    unfold eps in Hv2. lra.
  - eexists. split; [reflexivity |]. rewrite Qred_correct. split; assumption.
Qed.

Lemma rnd_zero (q : Q) : q == 0 -> rnd q = Fin 0.
Proof.
  intros H. unfold rnd. destruct q as [n d]. unfold Qeq in H. cbn in H.
  replace n with 0%Z by lia. reflexivity.
Qed.

Lemma is_zero_pos (q : Q) : 0 < q -> is_zero q = false.
Proof.
  destruct q as [n d]. unfold Qlt, is_zero. cbn. intros H.
  apply Z.eqb_neq. lia.
Qed.

(** Rounding a non-negative rational that is zero or of moderate size. *)
Lemma rnd_moderate (q : Q) :
  q == 0 \/ (pow2 (-200) <= q /\ q <= pow2 200) ->
  exists v, rnd q = Fin v /\ (1 - eps) * q <= v /\ v <= (1 + eps) * q.
Proof.
  intros [H0 | [Hlo Hhi]].
  - exists 0. rewrite (rnd_zero q H0), H0. repeat split; unfold eps; lra.
  - apply rnd_accurate.
    + eapply Qle_trans; [apply (pow2_le (-1022) (-200)); lia | exact Hlo].
    + eapply Qle_lt_trans; [exact Hhi |]. reflexivity.
Qed.

End Float64Facts.

(** ** The rounding against the Standard Library's binary64 *)

(** [rnd] agrees with the Standard Library's specification of binary64
    division and multiplication on operands of every kind: normal,
    subnormal, tie, overflow. *)
Example rnd_agrees_div_1200_1366 :
  rnd (1200 # 1366) =
    of_spec (SpecFloat.SFdiv prec emax (spec_of_int 1200) (spec_of_int 1366)).
Proof. vm_compute. reflexivity. Qed.

Example rnd_agrees_div_1366_768 :
  rnd (1366 # 768) =
    of_spec (SpecFloat.SFdiv prec emax (spec_of_int 1366) (spec_of_int 768)).
Proof. vm_compute. reflexivity. Qed.

Example rnd_agrees_div_subnormal :
  rnd (1 # (3 * 2 ^ 1070)) =
    of_spec (SpecFloat.SFdiv prec emax (SpecFloat.S754_finite false 1 (-1070))
               (spec_of_int 3)).
Proof. vm_compute. reflexivity. Qed.

Example rnd_agrees_mul_overflow :
  rnd (inject_Z (2 ^ 1023) * 2) =
    of_spec (SpecFloat.SFmul prec emax (SpecFloat.S754_finite false 1 1023)
               (spec_of_int 2)).
Proof. vm_compute. reflexivity. Qed.

Example rnd_agrees_mul_tie :
  rnd (inject_Z (2 ^ 53 + 1) * 3) =
    of_spec (SpecFloat.SFmul prec emax (spec_of_int (2 ^ 53 + 1)) (spec_of_int 3)).
Proof. vm_compute. reflexivity. Qed.

Example round_half_even_ties :
  map round_half_even [1 # 2; 3 # 2; 5 # 2; - (1 # 2); - (3 # 2); 1201 # 2; 7 # 4]%Q
  = [0; 2; 2; 0; -2; 600; 2].
Proof. reflexivity. Qed.

(** ** Accuracy of the operators on moderate operands *)

Module ScalingFacts.

Import Float64Facts.
Local Open Scope Q_scope.

Lemma rnd_mid (q : Q) :
  q == 0 \/ (tiny <= q /\ q <= huge) ->
  exists v, rnd q = Fin v /\ (1 - eps) * q <= v /\ v <= (1 + eps) * q.
Proof. exact (rnd_moderate q). Qed.

Lemma float_of_int_accurate (z : Z) :
  (0 <= z <= 2 ^ 100)%Z ->
  exists v, float_of_int z = Ok (Fin v) /\
            (1 - eps) * inject_Z z <= v /\ v <= (1 + eps) * inject_Z z.
Proof.
  intros [Hz0 Hz1].
  assert (Hr : inject_Z z == 0 \/ (tiny <= inject_Z z /\ inject_Z z <= huge)).
  { destruct (Z.eq_dec z 0) as [-> | Hne]; [left; reflexivity | right].
    assert (H1 : inject_Z 1 <= inject_Z z) by (rewrite <- Zle_Qle; lia).
    assert (H2 : inject_Z z <= inject_Z (2 ^ 100)) by (rewrite <- Zle_Qle; lia).
    change (inject_Z 1) with 1 in H1.
    change (inject_Z (2 ^ 100)) with (1267650600228229401496703205376 # 1) in H2.
    unfold tiny, huge. split; lra. }
  destruct (rnd_mid _ Hr) as (v & Hv & Hb).
  exists v. unfold float_of_int. rewrite Hv. split; [reflexivity | exact Hb].
Qed.

Lemma int_div_float_accurate (x : Z) (s : Q) :
  (0 <= x <= 2 ^ 100)%Z ->
  pow2 (-60) <= s -> s <= pow2 60 ->
  exists a, int_div_float x (Fin s) = Ok (Fin a) /\
            (1 - eps) * (1 - eps) * inject_Z x <= a * s /\
            a * s <= (1 + eps) * (1 + eps) * inject_Z x.
Proof.
  intros Hx Hs1 Hs2.
  change (pow2 (-60)) with (1 # 1152921504606846976) in Hs1.
  change (pow2 60) with (1152921504606846976 # 1) in Hs2.
  assert (Hs0 : 0 < s) by lra.
  destruct (float_of_int_accurate x Hx) as (g & Hg & Hg1 & Hg2).
  assert (HX : inject_Z x == 0 \/ 1 <= inject_Z x).
  { destruct (Z.eq_dec x 0) as [-> | Hne]; [left; reflexivity | right].
    change 1 with (inject_Z 1). rewrite <- Zle_Qle. lia. }
  assert (HX2 : inject_Z x <= 1267650600228229401496703205376 # 1).
  { change (1267650600228229401496703205376 # 1) with (inject_Z (2 ^ 100)).
    rewrite <- Zle_Qle. lia. }
  assert (Hgs : g / s * s == g) by (field; lra).
  assert (Hr : g / s == 0 \/ (tiny <= g / s /\ g / s <= huge)).
  { destruct HX as [HX | HX].
    - left. assert (g == 0) as -> by (unfold eps in *; lra). field. lra.
    - right. split.
      + apply Qle_shift_div_l; [exact Hs0 |]. unfold tiny, eps in *. lra.
      + apply Qle_shift_div_r; [exact Hs0 |]. unfold huge, eps in *. lra. }
  destruct (rnd_mid _ Hr) as (a & Ha & Ha1 & Ha2).
  exists a. split.
  - unfold int_div_float. rewrite Hg. cbn. rewrite (is_zero_pos s Hs0). cbn.
    now rewrite Ha.
  - assert (Hm1 : (1 - eps) * (g / s) * s <= a * s)
      by (apply Qmult_le_compat_r; [exact Ha1 | lra]).
    assert (Hm2 : a * s <= (1 + eps) * (g / s) * s)
      by (apply Qmult_le_compat_r; [exact Ha2 | lra]).
    rewrite <- Qmult_assoc, Hgs in Hm1, Hm2.
    unfold eps in *. split; nra.
Qed.

Lemma int_mul_float_accurate (x : Z) (s : Q) :
  (0 <= x <= 2 ^ 100)%Z ->
  pow2 (-60) <= s -> s <= pow2 60 ->
  exists p, int_mul_float x (Fin s) = Ok (Fin p) /\
            (1 - eps) * (1 - eps) * (inject_Z x * s) <= p /\
            p <= (1 + eps) * (1 + eps) * (inject_Z x * s).
Proof.
  intros Hx Hs1 Hs2.
  change (pow2 (-60)) with (1 # 1152921504606846976) in Hs1.
  change (pow2 60) with (1152921504606846976 # 1) in Hs2.
  assert (Hs0 : 0 < s) by lra.
  destruct (float_of_int_accurate x Hx) as (g & Hg & Hg1 & Hg2).
  assert (HX : inject_Z x == 0 \/ 1 <= inject_Z x).
  { destruct (Z.eq_dec x 0) as [-> | Hne]; [left; reflexivity | right].
    change 1 with (inject_Z 1). rewrite <- Zle_Qle. lia. }
  assert (HX2 : inject_Z x <= 1267650600228229401496703205376 # 1).
  { change (1267650600228229401496703205376 # 1) with (inject_Z (2 ^ 100)).
    rewrite <- Zle_Qle. lia. }
  assert (Hr : g * s == 0 \/ (tiny <= g * s /\ g * s <= huge)).
  { destruct HX as [HX | HX].
    - left. assert (g == 0) as -> by (unfold eps in *; lra). ring.
    - right. unfold tiny, huge, eps in *. split; nra. }
  destruct (rnd_mid _ Hr) as (p & Hp & Hp1 & Hp2).
  exists p. split.
  - unfold int_mul_float, float_mul. rewrite Hg. unfold rbind, mul.
    now rewrite Hp.
  - unfold eps in *. split; nra.
Qed.

Lemma int_truediv_accurate (a b : Z) :
  (1 <= a <= 2 ^ 48)%Z -> (1 <= b <= 2 ^ 48)%Z ->
  exists v, int_truediv a b = Ok (Fin v) /\
            (1 - eps) * inject_Z a <= v * inject_Z b /\
            v * inject_Z b <= (1 + eps) * inject_Z a.
Proof.
  intros Ha Hb. destruct b as [|d|d]; try lia.
  assert (HA1 : 1 <= inject_Z a) by (change 1 with (inject_Z 1); rewrite <- Zle_Qle; lia).
  assert (HA2 : inject_Z a <= 281474976710656 # 1).
  { change (281474976710656 # 1) with (inject_Z (2 ^ 48)). rewrite <- Zle_Qle. lia. }
  assert (HB1 : 1 <= inject_Z (Zpos d)) by (change 1 with (inject_Z 1); rewrite <- Zle_Qle; lia).
  assert (HB2 : inject_Z (Zpos d) <= 281474976710656 # 1).
  { change (281474976710656 # 1) with (inject_Z (2 ^ 48)). rewrite <- Zle_Qle. lia. }
  set (A := inject_Z a) in *. set (B := inject_Z (Zpos d)) in *.
  assert (Hq : a # d == A / B) by apply Qmake_Qdiv.
  assert (Hqb : A / B * B == A) by (field; lra).
  assert (Hr : a # d == 0 \/ (tiny <= a # d /\ a # d <= huge)).
  { right. rewrite Hq. split.
    - apply Qle_shift_div_l; [lra |]. unfold tiny. lra.
    - apply Qle_shift_div_r; [lra |]. unfold huge. lra. }
  destruct (rnd_mid _ Hr) as (v & Hv & Hv1 & Hv2).
  exists v. split.
  - unfold int_truediv. now rewrite Hv.
  - rewrite Hq in Hv1, Hv2.
    assert (Hm1 : (1 - eps) * (A / B) * B <= v * B)
      by (apply Qmult_le_compat_r; [exact Hv1 | lra]).
    assert (Hm2 : v * B <= (1 + eps) * (A / B) * B)
      by (apply Qmult_le_compat_r; [exact Hv2 | lra]).
    rewrite <- Qmult_assoc, Hqb in Hm1, Hm2. split; assumption.
Qed.

Lemma float_div_int_accurate (t : Q) (h : Z) :
  (1 <= h <= 2 ^ 48)%Z ->
  pow2 (-60) <= t -> t <= pow2 60 ->
  exists v, float_div_int (Fin t) h = Ok (Fin v) /\
            (1 - eps) * t <= (1 + eps) * (v * inject_Z h) /\
            (1 - eps) * (v * inject_Z h) <= (1 + eps) * t.
Proof.
  intros Hh Ht1 Ht2.
  change (pow2 (-60)) with (1 # 1152921504606846976) in Ht1.
  change (pow2 60) with (1152921504606846976 # 1) in Ht2.
  destruct (float_of_int_accurate h ltac:(lia)) as (g & Hg & Hg1 & Hg2).
  assert (HH1 : 1 <= inject_Z h) by (change 1 with (inject_Z 1); rewrite <- Zle_Qle; lia).
  assert (HH2 : inject_Z h <= 281474976710656 # 1).
  { change (281474976710656 # 1) with (inject_Z (2 ^ 48)). rewrite <- Zle_Qle. lia. }
  set (H := inject_Z h) in *.
  assert (Hg0 : 0 < g) by (unfold eps in *; lra).
  assert (Htg : t / g * g == t) by (field; lra).
  assert (Hr : t / g == 0 \/ (tiny <= t / g /\ t / g <= huge)).
  { right. split.
    - apply Qle_shift_div_l; [exact Hg0 |]. unfold tiny, eps in *. lra.
    - apply Qle_shift_div_r; [exact Hg0 |]. unfold huge, eps in *. lra. }
  destruct (rnd_mid _ Hr) as (v & Hv & Hv1 & Hv2).
  exists v. split.
  - unfold float_div_int. rewrite Hg. cbn. rewrite (is_zero_pos g Hg0). cbn.
    now rewrite Hv.
  - assert (Hm1 : (1 - eps) * (t / g) * g <= v * g)
      by (apply Qmult_le_compat_r; [exact Hv1 | lra]).
    assert (Hm2 : v * g <= (1 + eps) * (t / g) * g)
      by (apply Qmult_le_compat_r; [exact Hv2 | lra]).
    rewrite <- Qmult_assoc, Htg in Hm1, Hm2.
    assert (Hv0 : 0 <= v).
    { apply Qle_trans with ((1 - eps) * (t / g)); [| exact Hv1].
      apply Qmult_le_0_compat; [unfold eps; lra |].
      apply Qle_shift_div_l; [exact Hg0 | lra]. }
    unfold eps in *. split; nra.
Qed.

Lemma inject_Z_dim (z : Z) :
  (1 <= z <= dim_max)%Z ->
  1 <= inject_Z z /\ inject_Z z <= 281474976710656 # 1.
Proof.
  intros Hz. split.
  - change 1 with (inject_Z 1). rewrite <- Zle_Qle. lia.
  - change (281474976710656 # 1) with (inject_Z dim_max). rewrite <- Zle_Qle. lia.
Qed.

Lemma scaling_factors_accurate (self : ComputerTool) :
  (1 <= width self <= dim_max)%Z -> (1 <= height self <= dim_max)%Z ->
  exists sx sy,
    scaling_factors self = Ok (Fin sx, Fin sy) /\
    (1200 * (1 - eps) <= sx * inject_Z (width self) /\
     sx * inject_Z (width self) <= 1200 * (1 + eps)) /\
    (1200 * (1 - 8 * eps) <= sy * inject_Z (width self) /\
     sy * inject_Z (width self) <= 1200 * (1 + 8 * eps)).
Proof.
  intros Hw Hh.
  destruct (inject_Z_dim _ Hw) as [HW1 HW2].
  destruct (inject_Z_dim _ Hh) as [HH1 HH2].
  destruct (int_truediv_accurate (width self) (height self) Hw Hh)
    as (r & Hr & Hr1 & Hr2).
  set (W := inject_Z (width self)) in *. set (H := inject_Z (height self)) in *.
  assert (Hr0 : 0 < r) by (unfold eps in *; nra).
  assert (Hrlo : pow2 (-60) <= r).
  { change (pow2 (-60)) with (1 # 1152921504606846976). unfold eps in *. nra. }
  assert (Hrhi : r <= pow2 60).
  { change (pow2 60) with (1152921504606846976 # 1). unfold eps in *. nra. }
  destruct (int_div_float_accurate IMAGE_MAX_WIDTH r ltac:(unfold IMAGE_MAX_WIDTH; lia) Hrlo Hrhi)
    as (th & Hth & Hth1 & Hth2).
  change (inject_Z IMAGE_MAX_WIDTH) with 1200 in Hth1, Hth2.
  change (pow2 (-60)) with (1 # 1152921504606846976) in Hrlo.
  change (pow2 60) with (1152921504606846976 # 1) in Hrhi.
  assert (Hth0 : 0 < th) by (unfold eps in *; nra).
  assert (Hthlo : pow2 (-60) <= th).
  { change (pow2 (-60)) with (1 # 1152921504606846976). unfold eps in *. nra. }
  assert (Hthhi : th <= pow2 60).
  { change (pow2 60) with (1152921504606846976 # 1). unfold eps in *. nra. }
  destruct (int_truediv_accurate IMAGE_MAX_WIDTH (width self)
              ltac:(unfold IMAGE_MAX_WIDTH; lia) Hw) as (sx & Hsx & Hsx1 & Hsx2).
  change (inject_Z IMAGE_MAX_WIDTH) with 1200 in Hsx1, Hsx2. fold W in Hsx1, Hsx2.
  destruct (float_div_int_accurate th (height self) Hh Hthlo Hthhi)
    as (sy & Hsy & Hsy1 & Hsy2).
  fold H in Hsy1, Hsy2.
  exists sx, sy. split; [| split].
  - unfold scaling_factors. rewrite Hr. cbn [rbind]. rewrite Hth. cbn [rbind].
    rewrite Hsx. cbn [rbind]. rewrite Hsy. reflexivity.
  - split; lra.
  - assert (Hsy0 : 0 <= sy) by (unfold eps in *; nra).
    assert (Ha : (1 - eps) * W * sy <= r * H * sy)
      by (apply Qmult_le_compat_r; [exact Hr1 | exact Hsy0]).
    assert (Hb : r * H * sy <= (1 + eps) * W * sy)
      by (apply Qmult_le_compat_r; [exact Hr2 | exact Hsy0]).
    assert (Hc : (1 - eps) * th * r <= (1 + eps) * (sy * H) * r)
      by (apply Qmult_le_compat_r; [lra | lra]).
    assert (Hd : (1 - eps) * (sy * H) * r <= (1 + eps) * th * r)
      by (apply Qmult_le_compat_r; [lra | lra]).
    unfold eps in *. split; nra.
Qed.

Lemma round_half_even_nonneg (q : Q) : 0 <= q -> (0 <= round_half_even q)%Z.
Proof.
  intros Hq. destruct (round_half_even_bounds q) as [_ H].
  assert (Hlt : inject_Z (-1) < inject_Z (round_half_even q))
    by (change (inject_Z (-1)) with (-1 # 1); lra).
  rewrite <- Zlt_Qlt in Hlt. lia.
Qed.

Lemma round_half_even_near (q : Q) (x : Z) :
  inject_Z x - (3 # 2) < q -> q < inject_Z x + (3 # 2) ->
  (x - 1 <= round_half_even q <= x + 1)%Z.
Proof.
  intros H1 H2. destruct (round_half_even_bounds q) as [H3 H4].
  assert (Ha : inject_Z (x + -2) < inject_Z (round_half_even q)).
  { rewrite inject_Z_plus. change (inject_Z (-2)) with (-2 # 1). lra. }
  assert (Hb : inject_Z (round_half_even q) < inject_Z (x + 2)).
  { rewrite inject_Z_plus. change (inject_Z 2) with (2 # 1). lra. }
  rewrite <- Zlt_Qlt in Ha, Hb. lia.
Qed.

Lemma roundtrip_component (x : Z) (s W : Q) :
  (0 <= x)%Z -> inject_Z x <= 281474976710656 # 1 ->
  1201 <= W -> W <= 281474976710656 # 1 ->
  1200 * (1 - 8 * eps) <= s * W -> s * W <= 1200 * (1 + 8 * eps) ->
  exists a p,
    int_div_float x (Fin s) = Ok (Fin a) /\
    int_mul_float (round_half_even a) (Fin s) = Ok (Fin p) /\
    (x - 1 <= round_half_even p <= x + 1)%Z.
Proof.
  intros Hx0 Hx1 HW1 HW2 Hs1 Hs2.
  assert (HX0 : 0 <= inject_Z x) by (change 0 with (inject_Z 0); rewrite <- Zle_Qle; lia).
  assert (Hs0 : 0 < s) by (unfold eps in *; nra).
  assert (Hslo : (1 # 1152921504606846976) <= s) by (unfold eps in *; nra).
  assert (Hshi : s * 1201 <= 1200 * (1 + 8 * eps)) by (unfold eps in *; nra).
  assert (Hx2 : (0 <= x <= 2 ^ 100)%Z).
  { split; [exact Hx0 |]. rewrite Zle_Qle.
    change (inject_Z (2 ^ 100)) with (1267650600228229401496703205376 # 1). lra. }
  destruct (int_div_float_accurate x s Hx2) as (a & Ha & Ha1 & Ha2).
  { change (pow2 (-60)) with (1 # 1152921504606846976). exact Hslo. }
  { change (pow2 60) with (1152921504606846976 # 1). unfold eps in *. lra. }
  set (X := inject_Z x) in *.
  assert (Ha0 : 0 <= a) by (unfold eps in *; nra).
  destruct (round_half_even_bounds a) as [Hk1 Hk2].
  pose proof (round_half_even_nonneg a Ha0) as Hk0.
  set (k := round_half_even a) in *.
  assert (HK0 : 0 <= inject_Z k) by (change 0 with (inject_Z 0); rewrite <- Zle_Qle; lia).
  assert (Hahi : a <= 1237940039285380274899124224 # 1) by (unfold eps in *; nra).
  assert (Hk2' : (0 <= k <= 2 ^ 100)%Z).
  { split; [exact Hk0 |]. rewrite Zle_Qle.
    change (inject_Z (2 ^ 100)) with (1267650600228229401496703205376 # 1). lra. }
  destruct (int_mul_float_accurate k s Hk2') as (p & Hp & Hp1 & Hp2).
  { change (pow2 (-60)) with (1 # 1152921504606846976). exact Hslo. }
  { change (pow2 60) with (1152921504606846976 # 1). unfold eps in *. lra. }
  set (K := inject_Z k) in *.
  exists a, p. split; [exact Ha | split; [exact Hp |]].
  assert (Hks1 : (a - (1 # 2)) * s <= K * s)
    by (apply Qmult_le_compat_r; lra).
  assert (Hks2 : K * s <= (a + (1 # 2)) * s)
    by (apply Qmult_le_compat_r; lra).
  apply round_half_even_near; fold X; unfold eps in *; nra.
Qed.

End ScalingFacts.

(** ** Coordinate scaling *)

Import Float64Facts ScalingFacts.

(** The conversions on the default 1920x1080 screen, and the Python
    exceptions degenerate resolutions run into. *)
Example scale_default_down :
  scale_coordinates default_tool COMPUTER 1920 1080 = Ok (1200, 675).
Proof. vm_compute. reflexivity. Qed.

Example scale_default_up :
  scale_coordinates default_tool API 600 600 = Ok (960, 960).
Proof. vm_compute. reflexivity. Qed.

Example scale_beyond_api_space :
  scale_coordinates default_tool API 1500 700 = Ok (2400, 1120).
Proof. vm_compute. reflexivity. Qed.

Example scale_zero_height :
  scale_coordinates (with_resolution 1920 0) COMPUTER 1 1 = Raise ZeroDivisionError.
Proof. vm_compute. reflexivity. Qed.

Example scale_factor_underflow :
  scale_coordinates (with_resolution (2 ^ 1100) (2 ^ 1000)) API 5 5
  = Raise ZeroDivisionError.
Proof. vm_compute. reflexivity. Qed.

Example scale_infinite_factor :
  scale_coordinates (with_resolution 1 (2 ^ 1023)) COMPUTER 5 3 = Raise OverflowError.
Proof. vm_compute. reflexivity. Qed.

Example scale_nan_product :
  scale_coordinates (with_resolution 1 (2 ^ 1023)) COMPUTER 5 0 = Raise ValueError.
Proof. vm_compute. reflexivity. Qed.

Lemma scale_coordinates_disabled
  (self : ComputerTool) (source : ScalingSource) (x y : Z) :
  _scaling_enabled self = false -> scale_coordinates self source x y = Ok (x, y).
Proof. intros H. unfold scale_coordinates. now rewrite H. Qed.

Lemma scale_coordinates_api (self : ComputerTool) (sx sy : float) (x y : Z) :
  _scaling_enabled self = true ->
  scaling_factors self = Ok (sx, sy) ->
  x <= width self -> y <= height self ->
  scale_coordinates self API x y =
    (a <- int_div_float x sx ;; x' <- py_round a ;;
     b <- int_div_float y sy ;; y' <- py_round b ;; Ok (x', y'))%result.
Proof.
  intros He Hf Hx Hy. unfold scale_coordinates. rewrite He, Hf. cbn [negb rbind].
  rewrite !Z.gtb_ltb.
  rewrite (proj2 (Z.ltb_ge (width self) x)) by lia.
  rewrite (proj2 (Z.ltb_ge (height self) y)) by lia.
  reflexivity.
Qed.

Lemma scale_coordinates_computer (self : ComputerTool) (sx sy : float) (x y : Z) :
  _scaling_enabled self = true ->
  scaling_factors self = Ok (sx, sy) ->
  scale_coordinates self COMPUTER x y =
    (a <- int_mul_float x sx ;; x' <- py_round a ;;
     b <- int_mul_float y sy ;; y' <- py_round b ;; Ok (x', y'))%result.
Proof.
  intros He Hf. unfold scale_coordinates. rewrite He, Hf. reflexivity.
Qed.

Lemma within_one_iff (a b : Z) : within_one a b <-> b - 1 <= a <= b + 1.
Proof. unfold within_one. lia. Qed.

(** C1 (as amended). On every screen with [0 < height], [width] above the
    cap and both at most [dim_max] = 2^48, a coordinate pair with
    [0 <= x <= width] and [0 <= y <= height] survives the conversion from API
    space to computer space and back: both conversions succeed and each
    component of the result is within one pixel of the original. *)
Theorem roundtrip_within_one (self : ComputerTool) (x y : Z) :
  0 < height self <= dim_max ->
  IMAGE_MAX_WIDTH < width self <= dim_max ->
  0 <= x <= width self -> 0 <= y <= height self ->
  roundtrip_ok self x y.
Proof.
  intros Hh Hw Hx Hy. unfold IMAGE_MAX_WIDTH in Hw.
  destruct (_scaling_enabled self) eqn:He.
  2:{ exists x, y. unfold roundtrip.
      rewrite !scale_coordinates_disabled by exact He. cbn.
      rewrite (scale_coordinates_disabled self COMPUTER x y He).
      unfold within_one. repeat split; lia. }
  destruct (scaling_factors_accurate self ltac:(lia) ltac:(lia))
    as (sx & sy & Hf & [Hsx1 Hsx2] & [Hsy1 Hsy2]).
  destruct (inject_Z_dim (width self) ltac:(lia)) as [_ HW2].
  destruct (inject_Z_dim (height self) ltac:(lia)) as [_ HH2].
  assert (HW1 : (1201 <= inject_Z (width self))%Q).
  { change 1201%Q with (inject_Z 1201). rewrite <- Zle_Qle. lia. }
  assert (HX : (inject_Z x <= 281474976710656 # 1)%Q).
  { eapply Qle_trans; [| exact HW2]. rewrite <- Zle_Qle. lia. }
  assert (HY : (inject_Z y <= 281474976710656 # 1)%Q).
  { eapply Qle_trans; [| exact HH2]. rewrite <- Zle_Qle. lia. }
  destruct (roundtrip_component x sx (inject_Z (width self)))
    as (ax & px & Hax & Hpx & Hrx); try assumption; try lia;
    try (unfold eps in *; lra).
  destruct (roundtrip_component y sy (inject_Z (width self)))
    as (ay & py & Hay & Hpy & Hry); try assumption; try lia.
  exists (round_half_even px), (round_half_even py). split.
  - unfold roundtrip.
    rewrite (scale_coordinates_api self _ _ x y He Hf) by lia.
    rewrite Hax, Hay. cbn [rbind py_round fst snd].
    rewrite (scale_coordinates_computer self _ _ _ _ He Hf).
    rewrite Hpx, Hpy. reflexivity.
  - split; apply within_one_iff; assumption.
Qed.

Lemma roundtrip_within_one_witness :
  (0 < height default_tool <= dim_max /\
   IMAGE_MAX_WIDTH < width default_tool <= dim_max /\
   0 <= 600 <= width default_tool /\ 0 <= 600 <= height default_tool) /\
  roundtrip_ok default_tool 600 600.
Proof.
  assert (H : 0 < height default_tool <= dim_max /\
              IMAGE_MAX_WIDTH < width default_tool <= dim_max /\
              0 <= 600 <= width default_tool /\ 0 <= 600 <= height default_tool)
    by (vm_compute; intuition discriminate).
  split; [exact H |].
  destruct H as (H1 & H2 & H3 & H4).
  exact (roundtrip_within_one default_tool 600 600 H1 H2 H3 H4).
Defined.

(** C1, counterexample. On a screen 2^55 pixels wide and 1080 high the pair
    (2^55 - 2, 0) satisfies every condition of the claim and comes back as
    (2^55, 0), two pixels away: the coordinate itself is not a binary64
    value. *)
Lemma roundtrip_huge_screen :
  let self := with_resolution (2 ^ 55) 1080 in
  let x := 2 ^ 55 - 2 in
  (0 < height self /\ IMAGE_MAX_WIDTH < width self /\
   0 <= x <= width self /\ 0 <= 0 <= height self) /\
  roundtrip self x 0 = Ok (2 ^ 55, 0) /\
  ~ roundtrip_ok self x 0.
Proof.
  cbv zeta.
  assert (Hr : roundtrip (with_resolution (2 ^ 55) 1080) (2 ^ 55 - 2) 0 = Ok (2 ^ 55, 0))
    by (vm_compute; reflexivity).
  split; [vm_compute; intuition discriminate |].
  split; [exact Hr |].
  intros (x' & y' & Hxy & Hx & _). rewrite Hr in Hxy.
  injection Hxy as <- <-. unfold within_one in Hx. vm_compute in Hx. apply Hx. reflexivity.
Qed.

Lemma factor_range (s W : Q) :
  (1 <= W)%Q -> (W <= 281474976710656 # 1)%Q ->
  (1200 * (1 - 8 * eps) <= s * W)%Q -> (s * W <= 1200 * (1 + 8 * eps))%Q ->
  (pow2 (-60) <= s)%Q /\ (s <= pow2 60)%Q.
Proof.
  intros H1 H2 H3 H4.
  change (pow2 (-60)) with (1 # 1152921504606846976)%Q.
  change (pow2 60) with (1152921504606846976 # 1)%Q.
  unfold eps in *. split; nra.
Qed.

(** C2. With scaling enabled, on a screen with dimensions in [1, dim_max],
    converting a pair of non-negative integers from API space to computer
    space raises if and only if [x] exceeds the screen's own width or [y] its
    own height, and the exception is then the out-of-bounds [ToolError];
    otherwise the result is [(round(x / x_scaling_factor),
    round(y / y_scaling_factor))]. *)
Theorem api_to_computer_bounds (self : ComputerTool) (x y : Z) :
  _scaling_enabled self = true ->
  1 <= width self <= dim_max -> 1 <= height self <= dim_max ->
  0 <= x -> 0 <= y ->
  ((exists e, scale_coordinates self API x y = Raise e) <->
   (x > width self \/ y > height self)) /\
  (x > width self \/ y > height self ->
   scale_coordinates self API x y = Raise (out_of_bounds x y)) /\
  (x <= width self -> y <= height self ->
   exists sx sy a b,
     scaling_factors self = Ok (sx, sy) /\
     int_div_float x sx = Ok (Fin a) /\
     int_div_float y sy = Ok (Fin b) /\
     scale_coordinates self API x y = Ok (round_half_even a, round_half_even b)).
Proof.
  intros He Hw Hh Hx Hy.
  destruct (scaling_factors_accurate self Hw Hh)
    as (sx & sy & Hf & [Hsx1 Hsx2] & [Hsy1 Hsy2]).
  destruct (inject_Z_dim (width self) Hw) as [HW1 HW2].
  assert (Hbad : x > width self \/ y > height self ->
                 scale_coordinates self API x y = Raise (out_of_bounds x y)).
  { intros Hb. unfold scale_coordinates. rewrite He, Hf. cbn [negb rbind].
    rewrite !Z.gtb_ltb.
    destruct (Z.ltb_spec (width self) x); [reflexivity |].
    destruct (Z.ltb_spec (height self) y); [reflexivity | lia]. }
  assert (Hgood : x <= width self -> y <= height self ->
    exists sx sy a b,
     scaling_factors self = Ok (sx, sy) /\
     int_div_float x sx = Ok (Fin a) /\
     int_div_float y sy = Ok (Fin b) /\
     scale_coordinates self API x y = Ok (round_half_even a, round_half_even b)).
  { intros Hxw Hyh.
    destruct (factor_range sx (inject_Z (width self))) as [Ha1 Ha2];
      try assumption; try (unfold eps in *; lra).
    destruct (factor_range sy (inject_Z (width self))) as [Hb1 Hb2];
      try assumption.
    assert (Hd : dim_max <= 2 ^ 100) by (vm_compute; discriminate).
    destruct (int_div_float_accurate x sx ltac:(lia) Ha1 Ha2) as (a & Ha & _).
    destruct (int_div_float_accurate y sy ltac:(lia) Hb1 Hb2) as (b & Hb & _).
    exists (Fin sx), (Fin sy), a, b. repeat split; try assumption.
    rewrite (scale_coordinates_api self _ _ x y He Hf) by lia.
    rewrite Ha, Hb. reflexivity. }
  split; [| split; assumption].
  split.
  - intros [e Hr]. destruct (Z_le_gt_dec x (width self)) as [Hxw | Hxw]; [| lia].
    destruct (Z_le_gt_dec y (height self)) as [Hyh | Hyh]; [| lia].
    destruct (Hgood Hxw Hyh) as (? & ? & ? & ? & _ & _ & _ & Hok). congruence.
  - intros Hb. eexists. apply Hbad, Hb.
Qed.

Lemma api_to_computer_bounds_witness :
  (_scaling_enabled default_tool = true /\
   1 <= width default_tool <= dim_max /\ 1 <= height default_tool <= dim_max /\
   0 <= 1921 /\ 0 <= 700) /\
  scale_coordinates default_tool API 1921 700 = Raise (out_of_bounds 1921 700).
Proof.
  assert (H : _scaling_enabled default_tool = true /\
   1 <= width default_tool <= dim_max /\ 1 <= height default_tool <= dim_max /\
   0 <= 1921 /\ 0 <= 700) by (vm_compute; intuition discriminate).
  split; [exact H |]. destruct H as (H1 & H2 & H3 & H4 & H5).
  apply (proj1 (proj2 (api_to_computer_bounds default_tool 1921 700 H1 H2 H3 H4 H5))).
  left. reflexivity.
Defined.

(** C9. With scaling disabled [scale_coordinates] returns its input
    unchanged from either source, for any integers: no bound is checked, so
    an API coordinate beyond the screen is accepted. *)
Theorem scaling_disabled_identity
  (self : ComputerTool) (source : ScalingSource) (x y : Z) :
  _scaling_enabled self = false ->
  scale_coordinates self source x y = Ok (x, y).
Proof. apply scale_coordinates_disabled. Qed.

Lemma scaling_disabled_identity_witness :
  let self := {| width := 1920; height := 1080; display_num := None;
                 _screenshot_delay := Fin 2; _scaling_enabled := false |} in
  _scaling_enabled self = false /\
  5000 > width self /\
  scale_coordinates self API 5000 7000 = Ok (5000, 7000).
Proof.
  cbv zeta. split; [reflexivity | split; [reflexivity |]].
  apply scaling_disabled_identity. reflexivity.
Defined.

(** C10, counterexample. On a 1366x768 screen the two factors differ in the
    last bit of the mantissa. *)
Lemma scaling_factors_1366x768 :
  scaling_factors (with_resolution 1366 768) =
    Ok (Fin (3956310067968225 # 4503599627370496),
        Fin (7912620135936451 # 9007199254740992)) /\
  ~ (3956310067968225 # 4503599627370496 == 7912620135936451 # 9007199254740992)%Q.
Proof. split; [vm_compute; reflexivity | intros H; vm_compute in H; discriminate H]. Qed.

Lemma scaling_factors_default :
  scaling_factors default_tool = Ok (Fin (5 # 8), Fin (5 # 8)).
Proof. vm_compute. reflexivity. Qed.

(** C10 (as amended). On every screen with dimensions in [1, dim_max] both
    factors are finite floats close to [IMAGE_MAX_WIDTH / width], the value
    they share in exact arithmetic: the x factor within relative error
    2^-53, the y factor within 2^-50. They agree up to rounding and need not
    be equal. *)
Theorem scaling_factors_close (self : ComputerTool) :
  1 <= width self <= dim_max -> 1 <= height self <= dim_max ->
  exists sx sy,
    scaling_factors self = Ok (Fin sx, Fin sy) /\
    (Qabs (sx - exact_factor self) <= eps * exact_factor self)%Q /\
    (Qabs (sy - exact_factor self) <= 8 * eps * exact_factor self)%Q.
Proof.
  intros Hw Hh.
  destruct (scaling_factors_accurate self Hw Hh)
    as (sx & sy & Hf & [Hsx1 Hsx2] & [Hsy1 Hsy2]).
  destruct (inject_Z_dim (width self) Hw) as [HW1 HW2].
  exists sx, sy. split; [exact Hf |].
  unfold exact_factor. change (inject_Z IMAGE_MAX_WIDTH) with 1200%Q.
  set (W := inject_Z (width self)) in *.
  assert (HE : (1200 / W * W == 1200)%Q) by (field; lra).
  set (E := (1200 / W)%Q) in *.
  split; apply Qabs_Qle_condition; unfold eps in *; split; nra.
Qed.

Lemma scaling_factors_close_witness :
  (1 <= width (with_resolution 1366 768) <= dim_max /\
   1 <= height (with_resolution 1366 768) <= dim_max) /\
  exists sx sy,
    scaling_factors (with_resolution 1366 768) = Ok (Fin sx, Fin sy) /\
    (Qabs (sx - exact_factor (with_resolution 1366 768))
       <= eps * exact_factor (with_resolution 1366 768))%Q /\
    (Qabs (sy - exact_factor (with_resolution 1366 768))
       <= 8 * eps * exact_factor (with_resolution 1366 768))%Q.
Proof.
  assert (H : 1 <= width (with_resolution 1366 768) <= dim_max /\
              1 <= height (with_resolution 1366 768) <= dim_max)
    by (vm_compute; intuition discriminate).
  split; [exact H |]. destruct H as [H1 H2].
  exact (scaling_factors_close (with_resolution 1366 768) H1 H2).
Defined.

(** Within the covered dimensions the computer-to-API conversion never
    raises. *)
Lemma scale_computer_total (self : ComputerTool) (x y : Z) :
  1 <= width self <= dim_max -> 1 <= height self <= dim_max ->
  0 <= x <= 2 ^ 100 -> 0 <= y <= 2 ^ 100 ->
  exists x' y', scale_coordinates self COMPUTER x y = Ok (x', y').
Proof.
  intros Hw Hh Hx Hy.
  destruct (_scaling_enabled self) eqn:He.
  2:{ exists x, y. now apply scale_coordinates_disabled. }
  destruct (scaling_factors_accurate self Hw Hh)
    as (sx & sy & Hf & [Hsx1 Hsx2] & [Hsy1 Hsy2]).
  destruct (inject_Z_dim (width self) Hw) as [HW1 HW2].
  destruct (factor_range sx (inject_Z (width self))) as [Ha1 Ha2];
    try assumption; try (unfold eps in *; lra).
  destruct (factor_range sy (inject_Z (width self))) as [Hb1 Hb2];
    try assumption.
  destruct (int_mul_float_accurate x sx Hx Ha1 Ha2) as (a & Ha & _).
  destruct (int_mul_float_accurate y sy Hy Hb1 Hb2) as (b & Hb & _).
  exists (round_half_even a), (round_half_even b).
  rewrite (scale_coordinates_computer self _ _ x y He Hf), Ha, Hb. reflexivity.
Qed.

(** C7. The descriptor has name "computer", type "computer_20241022", the
    configured display number, and as [display_width_px], [display_height_px]
    the configured resolution converted from computer space to API space;
    on a screen with dimensions in [1, dim_max] the conversion succeeds and
    the descriptor is produced. *)
Theorem to_params_descriptor (self : ComputerTool) :
  (forall w h,
     scale_coordinates self COMPUTER (width self) (height self) = Ok (w, h) ->
     to_params self =
       Ok {| name := "computer"; type := "computer_20241022";
             param_options := {| display_height_px := h;
                                 display_width_px := w;
                                 display_number := display_num self |} |}) /\
  (1 <= width self <= dim_max -> 1 <= height self <= dim_max ->
   exists w h,
     scale_coordinates self COMPUTER (width self) (height self) = Ok (w, h)).
Proof.
  split.
  - intros w h H. unfold to_params, options. rewrite H. reflexivity.
  - intros Hw Hh.
    assert (Hd : dim_max <= 2 ^ 100) by (vm_compute; discriminate).
    apply scale_computer_total; lia.
Qed.

Lemma to_params_descriptor_witness :
  (scale_coordinates default_tool COMPUTER (width default_tool) (height default_tool)
     = Ok (1200, 675) /\
   1 <= width default_tool <= dim_max /\ 1 <= height default_tool <= dim_max) /\
  to_params default_tool =
    Ok {| name := "computer"; type := "computer_20241022";
          param_options := {| display_height_px := 675;
                              display_width_px := 1200;
                              display_number := None |} |} /\
  exists w h,
    scale_coordinates default_tool COMPUTER (width default_tool) (height default_tool)
    = Ok (w, h).
Proof.
  assert (H : scale_coordinates default_tool COMPUTER
                (width default_tool) (height default_tool) = Ok (1200, 675))
    by (vm_compute; reflexivity).
  assert (Hw : 1 <= width default_tool <= dim_max)
    by (vm_compute; intuition discriminate).
  assert (Hh : 1 <= height default_tool <= dim_max)
    by (vm_compute; intuition discriminate).
  split; [exact (conj H (conj Hw Hh)) |].
  destruct (to_params_descriptor default_tool) as [Ha Hb].
  split; [exact (Ha 1200 675 H) | exact (Hb Hw Hh)].
Defined.

Lemma round_half_even_exact (q : Q) (x : Z) :
  (inject_Z x - (1 # 2) < q)%Q -> (q < inject_Z x + (1 # 2))%Q ->
  round_half_even q = x.
Proof.
  intros H1 H2. destruct (round_half_even_bounds q) as [H3 H4].
  assert (Ha : (inject_Z (x + -1) < inject_Z (round_half_even q))%Q).
  { rewrite inject_Z_plus. change (inject_Z (-1)) with (-1 # 1)%Q. lra. }
  assert (Hb : (inject_Z (round_half_even q) < inject_Z (x + 1))%Q).
  { rewrite inject_Z_plus. change (inject_Z 1) with (1 # 1)%Q. lra. }
  rewrite <- Zlt_Qlt in Ha, Hb. lia.
Qed.

(** With scaling enabled the screen's own width always converts to the cap:
    the advertised width is [IMAGE_MAX_WIDTH] whatever the screen. *)
Lemma screen_width_converts_to_cap (self : ComputerTool) :
  _scaling_enabled self = true ->
  1 <= width self <= dim_max -> 1 <= height self <= dim_max ->
  exists h,
    scale_coordinates self COMPUTER (width self) (height self)
    = Ok (IMAGE_MAX_WIDTH, h).
Proof.
  intros He Hw Hh.
  destruct (scaling_factors_accurate self Hw Hh)
    as (sx & sy & Hf & [Hsx1 Hsx2] & [Hsy1 Hsy2]).
  destruct (inject_Z_dim (width self) Hw) as [HW1 HW2].
  destruct (factor_range sx (inject_Z (width self))) as [Ha1 Ha2];
    try assumption; try (unfold eps in *; lra).
  destruct (factor_range sy (inject_Z (width self))) as [Hb1 Hb2];
    try assumption.
  assert (Hd : dim_max <= 2 ^ 100) by (vm_compute; discriminate).
  destruct (int_mul_float_accurate (width self) sx ltac:(lia) Ha1 Ha2)
    as (a & Ha & Hp1 & Hp2).
  destruct (int_mul_float_accurate (height self) sy ltac:(lia) Hb1 Hb2)
    as (b & Hb & _).
  exists (round_half_even b).
  rewrite (scale_coordinates_computer self _ _ _ _ He Hf), Ha, Hb.
  cbn [rbind py_round]. f_equal. f_equal.
  apply round_half_even_exact; change (inject_Z IMAGE_MAX_WIDTH) with 1200%Q;
    unfold eps in *; nra.
Qed.

(** ** Properties of the dispatcher *)

Local Open Scope string_scope.

Lemma not_in_group (action : string) (group : list string) :
  ~ In action group -> existsb (String.eqb action) group = false.
Proof.
  induction group as [| g group IH]; intros Hn; [reflexivity |].
  cbn [existsb]. apply orb_false_iff. split.
  - apply String.eqb_neq. intros ->. apply Hn. now left.
  - apply IH. intros Hi. apply Hn. now right.
Qed.

Lemma is_None_true (v : pyval) : is_None v = true -> v = PNone.
Proof. destruct v; now intros. Qed.

Lemma is_None_false (v : pyval) : v <> PNone -> is_None v = false.
Proof. destruct v; intros H; [contradiction | reflexivity ..]. Qed.

Lemma is_list_of_two_inv (v : pyval) :
  is_list_of_two v = true -> exists a b, v = PList [a; b].
Proof.
  destruct v as [| | | | | l | l]; try discriminate.
  destruct l as [| a [| b [| c l]]]; try discriminate.
  intros _. now exists a, b.
Qed.

(** C3. A [mouse_move] or [left_click_drag] call raises a [ToolError], with
    nothing done on the desktop, whenever the coordinate is absent, is not a
    pair, holds a negative integer or holds a non-integer, and whenever a text
    is supplied. (As for [isinstance(i, int)], a [bool] is an integer.) *)
Theorem pointer_actions_reject_malformed
  (self : ComputerTool) (w : world) (action : string) (text coordinate : pyval) :
  In action ["mouse_move"; "left_click_drag"] ->
  malformed_coordinate coordinate \/ text <> PNone ->
  exists message,
    __call__ self action text coordinate w = (Raise (ToolError message), w).
Proof.
  intros Ha Hbad.
  assert (Hg : existsb (String.eqb action) ["mouse_move"; "left_click_drag"] = true).
  { destruct Ha as [<- | [<- | []]]; reflexivity. }
  unfold __call__. rewrite Hg.
  destruct (is_None coordinate) eqn:Hc; [eexists; reflexivity |].
  destruct (is_None text) eqn:Ht; cbn [negb]; [| eexists; reflexivity].
  destruct (is_list_of_two coordinate) eqn:Hl; cbn [negb]; [| eexists; reflexivity].
  destruct (forallb is_nonneg_int (items coordinate)) eqn:Hf; cbn [negb];
    [| eexists; reflexivity].
  exfalso.
  apply is_None_true in Ht.
  destruct (is_list_of_two_inv _ Hl) as (a & b & ->).
  rewrite forallb_forall in Hf.
  destruct Hbad as [[Hm | [Hm | [Hm | Hm]]] | Hm].
  - discriminate Hm.
  - discriminate Hm.
  - destruct Hm as (z & Hin & Hz). apply Hf in Hin.
    unfold is_nonneg_int in Hin. cbn in Hin. lia.
  - destruct Hm as (v & Hin & Hv). apply Hf in Hin.
    unfold is_nonneg_int in Hin. rewrite Hv in Hin. discriminate Hin.
  - contradiction.
Qed.

Lemma pointer_actions_reject_malformed_witness :
  (In "mouse_move" ["mouse_move"; "left_click_drag"] /\
   (malformed_coordinate (PList [PInt 10; PInt (-3)]) \/ PNone <> PNone)) /\
  exists message,
    __call__ default_tool "mouse_move" PNone (PList [PInt 10; PInt (-3)]) a_world
    = (Raise (ToolError message), a_world).
Proof.
  assert (H1 : In "mouse_move" ["mouse_move"; "left_click_drag"]) by (now left).
  assert (H2 : malformed_coordinate (PList [PInt 10; PInt (-3)]) \/ PNone <> PNone).
  { left. right. right. left. exists (-3). split; [right; now left | reflexivity]. }
  split; [split; assumption |].
  exact (pointer_actions_reject_malformed default_tool a_world "mouse_move" PNone
           (PList [PInt 10; PInt (-3)]) H1 H2).
Defined.

(** C8. A [mouse_move] or [left_click_drag] call whose coordinate is a tuple
    of two non-negative integers raises the [ToolError] "... must be a tuple
    of length 2": the shape check demands a list. *)
Theorem tuple_coordinate_rejected
  (self : ComputerTool) (w : world) (action : string) (x y : Z) :
  In action ["mouse_move"; "left_click_drag"] ->
  0 <= x -> 0 <= y ->
  __call__ self action PNone (PTuple [PInt x; PInt y]) w =
    (Raise (ToolError [FVal (PTuple [PInt x; PInt y]);
                       FLit " must be a tuple of length 2"]), w).
Proof.
  intros Ha _ _.
  assert (Hg : existsb (String.eqb action) ["mouse_move"; "left_click_drag"] = true).
  { destruct Ha as [<- | [<- | []]]; reflexivity. }
  unfold __call__. rewrite Hg. reflexivity.
Qed.

Lemma tuple_coordinate_rejected_witness :
  (In "left_click_drag" ["mouse_move"; "left_click_drag"] /\ 0 <= 100 /\ 0 <= 200) /\
  __call__ default_tool "left_click_drag" PNone (PTuple [PInt 100; PInt 200]) a_world =
    (Raise (ToolError [FVal (PTuple [PInt 100; PInt 200]);
                       FLit " must be a tuple of length 2"]), a_world).
Proof.
  assert (H1 : In "left_click_drag" ["mouse_move"; "left_click_drag"])
    by (right; now left).
  assert (H2 : 0 <= 100) by discriminate.
  assert (H3 : 0 <= 200) by discriminate.
  split; [repeat split; assumption |].
  exact (tuple_coordinate_rejected default_tool a_world "left_click_drag" 100 200 H1 H2 H3).
Defined.

(** The shape check lets a coordinate through only when it is a list of two
    items. *)
Lemma shape_check_only_lists
  (self : ComputerTool) (w : world) (action : string) (coordinate : pyval) :
  In action ["mouse_move"; "left_click_drag"] ->
  coordinate <> PNone ->
  (forall a b, coordinate <> PList [a; b]) ->
  __call__ self action PNone coordinate w =
    (Raise (ToolError [FVal coordinate; FLit " must be a tuple of length 2"]), w).
Proof.
  intros Ha Hc Hl.
  assert (Hg : existsb (String.eqb action) ["mouse_move"; "left_click_drag"] = true).
  { destruct Ha as [<- | [<- | []]]; reflexivity. }
  unfold __call__. rewrite Hg, (is_None_false _ Hc). cbn [is_None negb].
  destruct (is_list_of_two coordinate) eqn:Hl2; [| reflexivity].
  destruct (is_list_of_two_inv _ Hl2) as (a & b & ->). now destruct (Hl a b).
Qed.

(** The same two integers in a list pass every check and move the pointer. *)
Lemma list_coordinate_accepted :
  __call__ default_tool "mouse_move" PNone (PList [PInt 100; PInt 200]) a_world =
    (Ok {| output := None; base64_image := Some "aW1hZ2U=" |},
     {| position := (960, 540); stored := stored a_world; captures := 1;
        events := [moveTo 160 320; sleep (Fin 2); grab; resize 1200 675; save] |}).
Proof. vm_compute. reflexivity. Qed.

(** C6. A call whose action is none of the ten known ones raises the
    [ToolError] "Invalid action: ...", whatever text and coordinate come with
    it, with nothing done on the desktop. *)
Theorem unknown_action_rejected
  (self : ComputerTool) (w : world) (action : string) (text coordinate : pyval) :
  ~ In action ACTIONS ->
  __call__ self action text coordinate w =
    (Raise (ToolError [FLit "Invalid action: "; FVal (PStr action)]), w).
Proof.
  intros Hn. unfold ACTIONS in Hn. cbn [In] in Hn.
  unfold __call__, call_text, call_bare.
  rewrite !not_in_group; [reflexivity | | |]; cbn [In]; tauto.
Qed.

Lemma unknown_action_rejected_witness :
  ~ In "scroll" ACTIONS /\
  __call__ default_tool "scroll" (PStr "up") (PList [PInt 1; PInt 2]) a_world =
    (Raise (ToolError [FLit "Invalid action: "; FVal (PStr "scroll")]), a_world).
Proof.
  assert (H : ~ In "scroll" ACTIONS).
  { unfold ACTIONS. cbn [In]. intros H.
    repeat (destruct H as [H | H]; [discriminate H |]). exact H. }
  split; [exact H |].
  exact (unknown_action_rejected default_tool a_world "scroll" (PStr "up")
           (PList [PInt 1; PInt 2]) H).
Defined.

Lemma split_nonempty (sep : ascii) (s : string) : split sep s <> [].
Proof.
  destruct s as [| c s]; cbn; [discriminate |].
  destruct (Ascii.eqb c sep); [discriminate |].
  destruct (split sep s); discriminate.
Qed.

(** Joining the pieces with the separator gives the text back. *)
Lemma join_split (sep : ascii) (s : string) : join sep (split sep s) = s.
Proof.
  induction s as [| c s IH]; [reflexivity |].
  cbn [split]. destruct (Ascii.eqb_spec c sep) as [-> | Hne].
  - pose proof (split_nonempty sep s) as Hs.
    destruct (split sep s) as [| p ps] eqn:E; [contradiction |].
    cbn [join]. cbn [join] in IH. cbn. now rewrite IH.
  - pose proof (split_nonempty sep s) as Hs.
    destruct (split sep s) as [| p ps] eqn:E; [contradiction |].
    destruct ps as [| p' ps]; cbn [join] in *; cbn; now rewrite IH.
Qed.

(** No piece contains the separator. *)
Lemma split_pieces_free (sep : ascii) (s piece : string) :
  In piece (split sep s) -> contains sep piece = false.
Proof.
  revert piece. induction s as [| c s IH]; intros piece Hin.
  - destruct Hin as [<- | []]. reflexivity.
  - cbn [split] in Hin. destruct (Ascii.eqb_spec c sep) as [-> | Hne].
    + destruct Hin as [<- | Hin]; [reflexivity | now apply IH].
    + pose proof (split_nonempty sep s) as Hs.
      destruct (split sep s) as [| p ps] eqn:E; [contradiction |].
      destruct Hin as [<- | Hin].
      * cbn [contains]. rewrite (proj2 (Ascii.eqb_neq c sep) Hne).
        apply IH. now left.
      * apply IH. now right.
Qed.

(** There is one more piece than there are separators. *)
Lemma length_split (sep : ascii) (s : string) :
  List.length (split sep s) = S (count sep s).
Proof.
  induction s as [| c s IH]; [reflexivity |].
  cbn [split count]. destruct (Ascii.eqb c sep).
  - cbn. now rewrite IH.
  - pose proof (split_nonempty sep s) as Hs.
    destruct (split sep s) as [| p ps] eqn:E; [contradiction |].
    cbn in *. exact IH.
Qed.

Lemma contains_count (sep : ascii) (s : string) :
  contains sep s = true -> (1 <= count sep s)%nat.
Proof.
  induction s as [| c s IH]; [discriminate |].
  cbn. destruct (Ascii.eqb c sep); cbn; [lia | exact IH].
Qed.

(** A text with a [+] always yields a chord of at least two keys. *)
Lemma chord_has_two_keys (t : string) :
  contains "+" t = true ->
  exists keys, key_event t = hotkey keys /\ (2 <= List.length keys)%nat.
Proof.
  intros H. unfold key_event. rewrite H. eexists. split; [reflexivity |].
  rewrite length_map, length_split. pose proof (contains_count _ _ H). lia.
Qed.

Lemma lower_char_idempotent (c : ascii) : lower_char (lower_char c) = lower_char c.
Proof.
  destruct c as [[] [] [] [] [] [] [] []]; reflexivity.
Qed.

Lemma lower_idempotent (s : string) : lower (lower s) = lower s.
Proof.
  induction s as [| c s IH]; [reflexivity |].
  cbn. now rewrite lower_char_idempotent, IH.
Qed.

(** C4. A [key] call with text [t] makes exactly one keyboard call and then
    takes the post-action screenshot: if [t] contains a [+], one [hotkey]
    call with the pieces of [t] split on [+], each stripped and lower-cased;
    otherwise one [press] of the lower-cased text. "ctrl+c" is the chord of
    the two keys "ctrl" and "c". *)
Theorem key_action_sends_chord (self : ComputerTool) (w : world) (t : string) :
  __call__ self "key" (PStr t) PNone w =
    take_action_screenshot self (emit (key_event t) w)
  /\ key_event "ctrl+c" = hotkey ["ctrl"; "c"]
  /\ key_event "Return" = press "return".
Proof.
  split; [| split; reflexivity].
  unfold __call__, call_text, key_event.
  change (existsb (String.eqb "key") ["mouse_move"; "left_click_drag"]) with false.
  change (existsb (String.eqb "key") ["key"; "type"]) with true.
  cbv iota. cbn [is_None negb]. change ("key" =? "key") with true. cbv iota.
  destruct (contains "+" t); reflexivity.
Qed.

Lemma key_ctrl_c_events :
  events (snd (__call__ default_tool "key" (PStr " Ctrl + Shift+c") PNone a_world)) =
    [hotkey ["ctrl"; "shift"; "c"]; sleep (Fin 2); grab; resize 1200 675; save].
Proof. vm_compute. reflexivity. Qed.

(** C5. A [cursor_position] call raises a [ToolError] when a text or a
    coordinate is supplied. Otherwise, the pointer location converting from
    computer space to API space to [(x, y)], it returns the output
    "X=<x>,Y=<y>" with no image and makes no call on the desktop: no
    screenshot is taken. On a screen with dimensions in [1, dim_max] and a
    pointer within [0, dim_max] on both axes the conversion succeeds. *)
Theorem cursor_position_reports_scaled_pointer (self : ComputerTool) (w : world) :
  (forall text coordinate,
     text <> PNone \/ coordinate <> PNone ->
     exists message,
       __call__ self "cursor_position" text coordinate w =
         (Raise (ToolError message), w)) /\
  (forall x y,
     scale_coordinates self COMPUTER (fst (position w)) (snd (position w))
       = Ok (x, y) ->
     __call__ self "cursor_position" PNone PNone w =
       (Ok {| output := Some ("X=" ++ str_of_int x ++ ",Y=" ++ str_of_int y);
              base64_image := None |}, w)) /\
  (1 <= width self <= dim_max -> 1 <= height self <= dim_max ->
   0 <= fst (position w) <= dim_max -> 0 <= snd (position w) <= dim_max ->
   exists x y,
     scale_coordinates self COMPUTER (fst (position w)) (snd (position w))
       = Ok (x, y)).
Proof.
  split; [| split].
  - intros text coordinate Hs.
    unfold __call__, call_text, call_bare.
    change (existsb (String.eqb "cursor_position") ["mouse_move"; "left_click_drag"])
      with false.
    change (existsb (String.eqb "cursor_position") ["key"; "type"]) with false.
    change (existsb (String.eqb "cursor_position")
              ["left_click"; "right_click"; "double_click"; "middle_click";
               "screenshot"; "cursor_position"]) with true.
    cbv iota.
    destruct text; try (eexists; reflexivity).
    destruct coordinate; try (eexists; reflexivity).
    destruct Hs as [Hs | Hs]; contradiction.
  - intros x y Hxy.
    unfold __call__, call_text, call_bare.
    change (existsb (String.eqb "cursor_position") ["mouse_move"; "left_click_drag"])
      with false.
    change (existsb (String.eqb "cursor_position") ["key"; "type"]) with false.
    change (existsb (String.eqb "cursor_position")
              ["left_click"; "right_click"; "double_click"; "middle_click";
               "screenshot"; "cursor_position"]) with true.
    cbv iota. cbn [is_None negb].
    change ("cursor_position" =? "screenshot") with false.
    change ("cursor_position" =? "cursor_position") with true. cbv iota.
    cbv beta. destruct (position w) as [px py]. cbn [fst snd] in Hxy.
    unfold bind, lift. cbv beta. rewrite Hxy. reflexivity.
  - intros Hw Hh Hx Hy.
    assert (Hd : dim_max <= 2 ^ 100) by (vm_compute; discriminate).
    apply scale_computer_total; lia.
Qed.

Lemma cursor_position_reports_scaled_pointer_witness :
  ((PStr "x" <> PNone \/ PNone <> PNone) /\
   scale_coordinates default_tool COMPUTER
     (fst (position a_world)) (snd (position a_world)) = Ok (600, 338) /\
   1 <= width default_tool <= dim_max /\ 1 <= height default_tool <= dim_max /\
   0 <= fst (position a_world) <= dim_max /\
   0 <= snd (position a_world) <= dim_max) /\
  (exists message,
     __call__ default_tool "cursor_position" (PStr "x") PNone a_world =
       (Raise (ToolError message), a_world)) /\
  __call__ default_tool "cursor_position" PNone PNone a_world =
    (Ok {| output := Some "X=600,Y=338"; base64_image := None |}, a_world) /\
  (exists x y,
     scale_coordinates default_tool COMPUTER
       (fst (position a_world)) (snd (position a_world)) = Ok (x, y)).
Proof.
  assert (H1 : PStr "x" <> PNone \/ PNone <> PNone) by (left; discriminate).
  assert (H2 : scale_coordinates default_tool COMPUTER
                 (fst (position a_world)) (snd (position a_world)) = Ok (600, 338))
    by (vm_compute; reflexivity).
  assert (H3 : 1 <= width default_tool <= dim_max)
    by (vm_compute; intuition discriminate).
  assert (H4 : 1 <= height default_tool <= dim_max)
    by (vm_compute; intuition discriminate).
  assert (H5 : 0 <= fst (position a_world) <= dim_max)
    by (vm_compute; intuition discriminate).
  assert (H6 : 0 <= snd (position a_world) <= dim_max)
    by (vm_compute; intuition discriminate).
  split; [exact (conj H1 (conj H2 (conj H3 (conj H4 (conj H5 H6))))) |].
  destruct (cursor_position_reports_scaled_pointer default_tool a_world)
    as (Ha & Hb & Hc).
  split; [exact (Ha (PStr "x") PNone H1) |].
  split; [exact (Hb 600 338 H2) | exact (Hc H3 H4 H5 H6)].
Defined.

(** ** Order and accuracy of the rounding *)

Module Float64Order.

Local Open Scope Q_scope.

(** A tie is rounded to an even integer. *)
Lemma round_half_even_tie (q : Q) :
  q - inject_Z (round_half_even q) == 1 # 2 \/
  inject_Z (round_half_even q) - q == 1 # 2 ->
  Z.even (round_half_even q) = true.
Proof.
  destruct q as [n d]. unfold round_half_even. cbn [Qnum Qden].
  pose proof (Z.div_mod n (Zpos d) ltac:(lia)) as Hdm.
  pose proof (Z.mod_pos_bound n (Zpos d) ltac:(lia)) as Hr.
  set (k := (n / Zpos d)%Z) in *. set (r := (n mod Zpos d)%Z) in *.
  destruct (Z.compare_spec (2 * r) (Zpos d)) as [He | Hl | Hg].
  - intros _. destruct (Z.even k) eqn:Ek; [exact Ek |].
    rewrite Z.even_add, Ek. reflexivity.
  - unfold Qeq, Qminus, Qplus, Qopp, inject_Z; cbn [Qnum Qden]. intros [H | H]; nia.
  - unfold Qeq, Qminus, Qplus, Qopp, inject_Z; cbn [Qnum Qden]. intros [H | H]; nia.
Qed.

Lemma round_half_even_monotone (a b : Q) :
  a <= b -> (round_half_even a <= round_half_even b)%Z.
Proof.
  intros Hab.
  destruct (round_half_even_bounds a) as [Ha1 Ha2].
  destruct (round_half_even_bounds b) as [Hb1 Hb2].
  destruct (Z_le_gt_dec (round_half_even a) (round_half_even b)) as [H | H];
    [exact H | exfalso].
  assert (H1 : inject_Z (round_half_even b + 1) <= inject_Z (round_half_even a))
    by (rewrite <- Zle_Qle; lia).
  rewrite inject_Z_plus in H1. change (inject_Z 1) with 1 in H1.
  assert (Ea : inject_Z (round_half_even a) - a == 1 # 2) by lra.
  assert (Eb : b - inject_Z (round_half_even b) == 1 # 2) by lra.
  assert (E1 : round_half_even a = (round_half_even b + 1)%Z).
  { apply Z.le_antisymm; rewrite Zle_Qle, inject_Z_plus;
      change (inject_Z 1) with 1; lra. }
  pose proof (round_half_even_tie a (or_intror Ea)) as Eva.
  pose proof (round_half_even_tie b (or_introl Eb)) as Evb.
  rewrite E1, Z.even_add, Evb in Eva. discriminate Eva.
Qed.

Lemma round_half_even_inject (z : Z) : round_half_even (inject_Z z) = z.
Proof.
  unfold round_half_even, inject_Z. cbn [Qnum Qden].
  rewrite Z.div_1_r, Z.mod_1_r. reflexivity.
Qed.

(** The shape of [rnd] on a positive rational in the normal range. *)
Lemma rnd_normal_form (q : Q) :
  pow2 (-1022) <= q -> q < pow2 1023 ->
  rnd q = Fin (Qred (inject_Z (round_half_even (q / pow2 (ilog2 q - 52)))
                     * pow2 (ilog2 q - 52))).
Proof.
  intros Hlo Hhi.
  destruct (rnd_accurate q Hlo Hhi) as (v & Hv & _).
  assert (Hq : 0 < q) by (eapply Qlt_le_trans; [apply (pow2_pos (-1022)) | exact Hlo]).
  destruct (ilog2_spec q Hq) as [Hl1 Hl2].
  assert (Hl3 : (-1022 < ilog2 q + 1)%Z).
  { apply pow2_lt_inv. eapply Qle_lt_trans; eassumption. }
  destruct q as [[|p|p] d]; try (exfalso; revert Hq; unfold Qlt; cbn; lia).
  unfold rnd in *. cbn [Qnum] in *.
  change (Qabs (Zpos p # d)) with (Zpos p # d) in *.
  change (Zpos p <? 0)%Z with false in *. cbv beta iota zeta in *.
  unfold ulp_exp, prec, emin, emax in *.
  rewrite Z.max_l in * by lia.
  change (53 - 1)%Z with 52%Z in *.
  destruct (Qle_bool _ _); [discriminate Hv | reflexivity].
Qed.

(** A rounded value stays in the binade of its argument. *)
Lemma rnd_binade (q : Q) :
  pow2 (-1022) <= q -> q < pow2 1023 ->
  exists v, rnd q = Fin v /\ pow2 (ilog2 q) <= v /\ v <= pow2 (ilog2 q + 1).
Proof.
  intros Hlo Hhi. eexists. split; [apply rnd_normal_form; assumption |].
  assert (Hq : 0 < q) by (eapply Qlt_le_trans; [apply (pow2_pos (-1022)) | exact Hlo]).
  destruct (ilog2_spec q Hq) as [Hl1 Hl2].
  set (l := ilog2 q) in *. set (e := (l - 52)%Z). set (E := pow2 e).
  assert (HE : 0 < E) by apply pow2_pos.
  assert (HlE : pow2 l == inject_Z (2 ^ 52) * E).
  { replace l with (52 + e)%Z by (unfold e; lia). rewrite pow2_add. reflexivity. }
  assert (HlE' : pow2 (l + 1) == inject_Z (2 ^ 53) * E).
  { replace (l + 1)%Z with (53 + e)%Z by (unfold e; lia). rewrite pow2_add. reflexivity. }
  assert (Ht1 : inject_Z (2 ^ 52) <= q / E).
  { apply Qle_shift_div_l; [exact HE |]. rewrite <- HlE. exact Hl1. }
  assert (Ht2 : q / E <= inject_Z (2 ^ 53)).
  { apply Qle_shift_div_r; [exact HE |]. rewrite <- HlE'. apply Qlt_le_weak, Hl2. }
  apply round_half_even_monotone in Ht1, Ht2.
  rewrite round_half_even_inject in Ht1, Ht2.
  rewrite Zle_Qle in Ht1, Ht2.
  rewrite Qred_correct, HlE, HlE'. split.
  - apply Qmult_le_compat_r; [exact Ht1 | apply Qlt_le_weak, HE].
  - apply Qmult_le_compat_r; [exact Ht2 | apply Qlt_le_weak, HE].
Qed.

(** [rnd] is monotone on the normal range. *)
Lemma rnd_monotone (p q : Q) :
  pow2 (-1022) <= p -> p <= q -> q < pow2 1023 ->
  exists u v, rnd p = Fin u /\ rnd q = Fin v /\ u <= v.
Proof.
  intros Hlo Hpq Hhi.
  assert (Hlo' : pow2 (-1022) <= q) by (eapply Qle_trans; eassumption).
  assert (Hhi' : p < pow2 1023) by (eapply Qle_lt_trans; eassumption).
  assert (Hp : 0 < p) by (eapply Qlt_le_trans; [apply (pow2_pos (-1022)) | exact Hlo]).
  assert (Hq : 0 < q) by (eapply Qlt_le_trans; eassumption).
  destruct (ilog2_spec p Hp) as [Hp1 Hp2].
  destruct (ilog2_spec q Hq) as [Hq1 Hq2].
  assert (Hl : (ilog2 p < ilog2 q + 1)%Z).
  { apply pow2_lt_inv. eapply Qle_lt_trans; [exact Hp1 |].
    eapply Qle_lt_trans; eassumption. }
  destruct (Z.eq_dec (ilog2 p) (ilog2 q)) as [El | Nl].
  - do 2 eexists. split; [apply rnd_normal_form; assumption |].
    split; [apply rnd_normal_form; assumption |].
    rewrite !Qred_correct, El.
    set (E := pow2 (ilog2 q - 52)).
    assert (HE : 0 < E) by apply pow2_pos.
    apply Qmult_le_compat_r; [| apply Qlt_le_weak, HE].
    rewrite <- Zle_Qle. apply round_half_even_monotone.
    apply Qmult_le_compat_r; [exact Hpq |]. apply Qlt_le_weak, Qinv_lt_0_compat, HE.
  - destruct (rnd_binade p Hlo Hhi') as (u & Hu & _ & Hu2).
    destruct (rnd_binade q Hlo' Hhi) as (v & Hv & Hv1 & _).
    exists u, v. split; [exact Hu | split; [exact Hv |]].
    eapply Qle_trans; [exact Hu2 |]. eapply Qle_trans; [| exact Hv1].
    apply pow2_le. lia.
Qed.

(** [rnd] is monotone on non-negative rationals of moderate size. *)
Lemma rnd_mid_monotone (p q : Q) :
  p == 0 \/ (tiny <= p /\ p <= huge) ->
  q == 0 \/ (tiny <= q /\ q <= huge) ->
  p <= q ->
  exists u v, rnd p = Fin u /\ rnd q = Fin v /\ u <= v.
Proof.
  intros Hp Hq Hpq.
  destruct (rnd_mid p Hp) as (u & Hu & Hu1 & Hu2).
  destruct (rnd_mid q Hq) as (v & Hv & Hv1 & Hv2).
  destruct Hp as [Hp | [Hp1 Hp2]].
  - exists u, v. repeat split; try assumption.
    assert (0 <= q) by (destruct Hq as [Hq | [Hq _]]; unfold tiny in *; lra).
    unfold eps in *. nra.
  - destruct Hq as [Hq | [Hq1 Hq2]]; [exfalso; unfold tiny in *; lra |].
    apply rnd_monotone; try assumption.
    + eapply Qle_trans; [apply (pow2_le (-1022) (-200)); lia | exact Hp1].
    + eapply Qle_lt_trans; [exact Hq2 |]. reflexivity.
Qed.

Lemma float_of_int_monotone (x1 x2 : Z) :
  (0 <= x1 <= x2)%Z -> (x2 <= 2 ^ 100)%Z ->
  exists g1 g2,
    float_of_int x1 = Ok (Fin g1) /\ float_of_int x2 = Ok (Fin g2) /\ g1 <= g2.
Proof.
  intros Hx Hx2.
  assert (Hr : forall z, (0 <= z <= 2 ^ 100)%Z ->
                inject_Z z == 0 \/ (tiny <= inject_Z z /\ inject_Z z <= huge)).
  { intros z Hz. destruct (Z.eq_dec z 0) as [-> | Hne]; [left; reflexivity | right].
    assert (H1 : inject_Z 1 <= inject_Z z) by (rewrite <- Zle_Qle; lia).
    assert (H2 : inject_Z z <= inject_Z (2 ^ 100)) by (rewrite <- Zle_Qle; lia).
    change (inject_Z 1) with 1 in H1.
    change (inject_Z (2 ^ 100)) with (1267650600228229401496703205376 # 1) in H2.
    unfold tiny, huge. split; lra. }
  destruct (rnd_mid_monotone (inject_Z x1) (inject_Z x2)) as (g1 & g2 & H1 & H2 & H3).
  - apply Hr. lia.
  - apply Hr. lia.
  - rewrite <- Zle_Qle. lia.
  - exists g1, g2. unfold float_of_int. rewrite H1, H2. repeat split. exact H3.
Qed.

Lemma int_mul_float_monotone (x1 x2 : Z) (s : Q) :
  (0 <= x1 <= x2)%Z -> (x2 <= 2 ^ 100)%Z ->
  pow2 (-60) <= s -> s <= pow2 60 ->
  exists p1 p2,
    int_mul_float x1 (Fin s) = Ok (Fin p1) /\
    int_mul_float x2 (Fin s) = Ok (Fin p2) /\ p1 <= p2.
Proof.
  intros Hx Hx2 Hs1 Hs2.
  destruct (float_of_int_monotone x1 x2 Hx Hx2) as (g1 & g2 & Hg1 & Hg2 & Hg).
  destruct (float_of_int_accurate x1 ltac:(lia)) as (g1' & Hg1' & Ha1 & Ha2).
  destruct (float_of_int_accurate x2 ltac:(lia)) as (g2' & Hg2' & Hb1 & Hb2).
  assert (g1' = g1) as -> by congruence. assert (g2' = g2) as -> by congruence.
  change (pow2 (-60)) with (1 # 1152921504606846976) in Hs1.
  change (pow2 60) with (1152921504606846976 # 1) in Hs2.
  assert (Hr : forall x g, (0 <= x <= 2 ^ 100)%Z ->
            (1 - eps) * inject_Z x <= g -> g <= (1 + eps) * inject_Z x ->
            g * s == 0 \/ (tiny <= g * s /\ g * s <= huge)).
  { intros x g Hz Hl Hu.
    assert (HX2 : inject_Z x <= 1267650600228229401496703205376 # 1).
    { change (1267650600228229401496703205376 # 1) with (inject_Z (2 ^ 100)).
      rewrite <- Zle_Qle. lia. }
    destruct (Z.eq_dec x 0) as [-> | Hne].
    - left. change (inject_Z 0) with 0 in *.
      assert (g == 0) as -> by (unfold eps in *; lra). ring.
    - right. assert (HX1 : 1 <= inject_Z x).
      { change 1 with (inject_Z 1). rewrite <- Zle_Qle. lia. }
      unfold tiny, huge, eps in *. split; nra. }
  destruct (rnd_mid_monotone (g1 * s) (g2 * s)) as (p1 & p2 & H1 & H2 & H3).
  - apply (Hr x1); [lia | assumption ..].
  - apply (Hr x2); [lia | assumption ..].
  - apply Qmult_le_compat_r; [exact Hg | lra].
  - exists p1, p2. unfold int_mul_float, float_mul. rewrite Hg1, Hg2.
    unfold rbind, mul. rewrite H1, H2. repeat split. exact H3.
Qed.

Lemma int_div_float_monotone (x1 x2 : Z) (s : Q) :
  (0 <= x1 <= x2)%Z -> (x2 <= 2 ^ 100)%Z ->
  pow2 (-60) <= s -> s <= pow2 60 ->
  exists a1 a2,
    int_div_float x1 (Fin s) = Ok (Fin a1) /\
    int_div_float x2 (Fin s) = Ok (Fin a2) /\ a1 <= a2.
Proof.
  intros Hx Hx2 Hs1 Hs2.
  destruct (float_of_int_monotone x1 x2 Hx Hx2) as (g1 & g2 & Hg1 & Hg2 & Hg).
  destruct (float_of_int_accurate x1 ltac:(lia)) as (g1' & Hg1' & Ha1 & Ha2).
  destruct (float_of_int_accurate x2 ltac:(lia)) as (g2' & Hg2' & Hb1 & Hb2).
  assert (g1' = g1) as -> by congruence. assert (g2' = g2) as -> by congruence.
  change (pow2 (-60)) with (1 # 1152921504606846976) in Hs1.
  change (pow2 60) with (1152921504606846976 # 1) in Hs2.
  assert (Hs0 : 0 < s) by lra.
  assert (Hr : forall x g, (0 <= x <= 2 ^ 100)%Z ->
            (1 - eps) * inject_Z x <= g -> g <= (1 + eps) * inject_Z x ->
            g / s == 0 \/ (tiny <= g / s /\ g / s <= huge)).
  { intros x g Hz Hl Hu.
    assert (HX2 : inject_Z x <= 1267650600228229401496703205376 # 1).
    { change (1267650600228229401496703205376 # 1) with (inject_Z (2 ^ 100)).
      rewrite <- Zle_Qle. lia. }
    destruct (Z.eq_dec x 0) as [-> | Hne].
    - left. change (inject_Z 0) with 0 in *.
      assert (g == 0) as -> by (unfold eps in *; lra). field. lra.
    - right. assert (HX1 : 1 <= inject_Z x).
      { change 1 with (inject_Z 1). rewrite <- Zle_Qle. lia. }
      split.
      + apply Qle_shift_div_l; [exact Hs0 |]. unfold tiny, eps in *. lra.
      + apply Qle_shift_div_r; [exact Hs0 |]. unfold huge, eps in *. lra. }
  destruct (rnd_mid_monotone (g1 / s) (g2 / s)) as (a1 & a2 & H1 & H2 & H3).
  - apply (Hr x1); [lia | assumption ..].
  - apply (Hr x2); [lia | assumption ..].
  - apply Qmult_le_compat_r; [exact Hg |]. apply Qlt_le_weak, Qinv_lt_0_compat, Hs0.
  - exists a1, a2. unfold int_div_float. rewrite Hg1, Hg2. cbn [rbind].
    unfold float_truediv. rewrite (is_zero_pos s Hs0). unfold div.
    rewrite H1, H2. repeat split. exact H3.
Qed.

End Float64Order.

Import Float64Order.

(** ** More on coordinate scaling *)

Lemma roundtrip_component_exact (x : Z) (s W : Q) :
  (0 <= x)%Z -> (inject_Z x <= 4294967296 # 1)%Q ->
  (1201 <= W)%Q -> (W <= 4294967296 # 1)%Q ->
  (1200 * (1 - 8 * eps) <= s * W)%Q -> (s * W <= 1200 * (1 + 8 * eps))%Q ->
  exists a p,
    int_div_float x (Fin s) = Ok (Fin a) /\
    int_mul_float (round_half_even a) (Fin s) = Ok (Fin p) /\
    round_half_even p = x.
Proof.
  intros Hx0 Hx1 HW1 HW2 Hs1 Hs2.
  assert (HX0 : (0 <= inject_Z x)%Q)
    by (change 0%Q with (inject_Z 0); rewrite <- Zle_Qle; lia).
  assert (Hs0 : (0 < s)%Q) by (unfold eps in *; nra).
  assert (Hslo : ((1 # 1152921504606846976) <= s)%Q) by (unfold eps in *; nra).
  assert (Hshi : (s * 1201 <= 1200 * (1 + 8 * eps))%Q) by (unfold eps in *; nra).
  assert (Hx2 : (0 <= x <= 2 ^ 100)%Z).
  { split; [exact Hx0 |]. rewrite Zle_Qle.
    change (inject_Z (2 ^ 100)) with (1267650600228229401496703205376 # 1)%Q. lra. }
  destruct (int_div_float_accurate x s Hx2) as (a & Ha & Ha1 & Ha2).
  { change (pow2 (-60)) with (1 # 1152921504606846976)%Q. exact Hslo. }
  { change (pow2 60) with (1152921504606846976 # 1)%Q. unfold eps in *. lra. }
  set (X := inject_Z x) in *.
  assert (Ha0 : (0 <= a)%Q) by (unfold eps in *; nra).
  destruct (round_half_even_bounds a) as [Hk1 Hk2].
  pose proof (round_half_even_nonneg a Ha0) as Hk0.
  set (k := round_half_even a) in *.
  assert (HK0 : (0 <= inject_Z k)%Q)
    by (change 0%Q with (inject_Z 0); rewrite <- Zle_Qle; lia).
  assert (Hahi : (a <= 1237940039285380274899124224 # 1)%Q) by (unfold eps in *; nra).
  assert (Hk2' : (0 <= k <= 2 ^ 100)%Z).
  { split; [exact Hk0 |]. rewrite Zle_Qle.
    change (inject_Z (2 ^ 100)) with (1267650600228229401496703205376 # 1)%Q. lra. }
  destruct (int_mul_float_accurate k s Hk2') as (p & Hp & Hp1 & Hp2).
  { change (pow2 (-60)) with (1 # 1152921504606846976)%Q. exact Hslo. }
  { change (pow2 60) with (1152921504606846976 # 1)%Q. unfold eps in *. lra. }
  set (K := inject_Z k) in *.
  exists a, p. split; [exact Ha | split; [exact Hp |]].
  assert (Hks1 : ((a - (1 # 2)) * s <= K * s)%Q)
    by (apply Qmult_le_compat_r; lra).
  assert (Hks2 : (K * s <= (a + (1 # 2)) * s)%Q)
    by (apply Qmult_le_compat_r; lra).
  apply round_half_even_exact; fold X; unfold eps in *; nra.
Qed.

(** X1. On a screen with [width] above the cap and both dimensions at most
    [exact_max] = 2^32, converting a pair on the screen rectangle from API
    space to computer space and back returns exactly that pair. *)
Theorem roundtrip_exact (self : ComputerTool) (x y : Z) :
  0 < height self <= exact_max ->
  IMAGE_MAX_WIDTH < width self <= exact_max ->
  0 <= x <= width self -> 0 <= y <= height self ->
  roundtrip self x y = Ok (x, y).
Proof.
  intros Hh Hw Hx Hy. unfold IMAGE_MAX_WIDTH in Hw.
  assert (Hm : exact_max <= dim_max) by (vm_compute; discriminate).
  destruct (_scaling_enabled self) eqn:He.
  2:{ unfold roundtrip. rewrite !scale_coordinates_disabled by exact He. cbn.
      now rewrite scale_coordinates_disabled. }
  destruct (scaling_factors_accurate self ltac:(lia) ltac:(lia))
    as (sx & sy & Hf & [Hsx1 Hsx2] & [Hsy1 Hsy2]).
  assert (Hinj : forall z, 0 <= z <= exact_max ->
                 (inject_Z z <= 4294967296 # 1)%Q).
  { intros z Hz. change (4294967296 # 1)%Q with (inject_Z exact_max).
    rewrite <- Zle_Qle. lia. }
  assert (HW1 : (1201 <= inject_Z (width self))%Q).
  { change 1201%Q with (inject_Z 1201). rewrite <- Zle_Qle. lia. }
  destruct (roundtrip_component_exact x sx (inject_Z (width self)))
    as (ax & px & Hax & Hpx & Hrx); try assumption; try lia;
    try (apply Hinj; lia); try (unfold eps in *; lra).
  destruct (roundtrip_component_exact y sy (inject_Z (width self)))
    as (ay & py & Hay & Hpy & Hry); try assumption; try lia;
    try (apply Hinj; lia).
  unfold roundtrip.
  rewrite (scale_coordinates_api self _ _ x y He Hf) by lia.
  rewrite Hax, Hay. cbn [rbind py_round fst snd].
  rewrite (scale_coordinates_computer self _ _ _ _ He Hf).
  rewrite Hpx, Hpy. cbn [rbind py_round]. now rewrite Hrx, Hry.
Qed.

Lemma roundtrip_exact_witness :
  (0 < height default_tool <= exact_max /\
   IMAGE_MAX_WIDTH < width default_tool <= exact_max /\
   0 <= 600 <= width default_tool /\ 0 <= 600 <= height default_tool) /\
  roundtrip default_tool 600 600 = Ok (600, 600).
Proof.
  assert (H : 0 < height default_tool <= exact_max /\
              IMAGE_MAX_WIDTH < width default_tool <= exact_max /\
              0 <= 600 <= width default_tool /\ 0 <= 600 <= height default_tool)
    by (vm_compute; intuition discriminate).
  split; [exact H |]. destruct H as (H1 & H2 & H3 & H4).
  exact (roundtrip_exact default_tool 600 600 H1 H2 H3 H4).
Defined.

Lemma factors_in_range (self : ComputerTool) :
  1 <= width self <= dim_max -> 1 <= height self <= dim_max ->
  exists sx sy,
    scaling_factors self = Ok (Fin sx, Fin sy) /\
    ((1200 * (1 - eps) <= sx * inject_Z (width self))%Q /\
     (sx * inject_Z (width self) <= 1200 * (1 + eps))%Q) /\
    ((1200 * (1 - 8 * eps) <= sy * inject_Z (width self))%Q /\
     (sy * inject_Z (width self) <= 1200 * (1 + 8 * eps))%Q) /\
    ((pow2 (-60) <= sx)%Q /\ (sx <= pow2 60)%Q) /\
    ((pow2 (-60) <= sy)%Q /\ (sy <= pow2 60)%Q).
Proof.
  intros Hw Hh.
  destruct (scaling_factors_accurate self Hw Hh)
    as (sx & sy & Hf & [Hsx1 Hsx2] & [Hsy1 Hsy2]).
  destruct (inject_Z_dim (width self) Hw) as [HW1 HW2].
  exists sx, sy. split; [exact Hf |].
  split; [split; assumption |]. split; [split; assumption |]. split.
  - apply (factor_range sx (inject_Z (width self))); try assumption;
      unfold eps in *; lra.
  - apply (factor_range sy (inject_Z (width self))); assumption.
Qed.

Lemma scale_computer_monotone_aux (self : ComputerTool) (x1 y1 x2 y2 : Z) :
  1 <= width self <= dim_max -> 1 <= height self <= dim_max ->
  0 <= x1 <= x2 -> x2 <= dim_max -> 0 <= y1 <= y2 -> y2 <= dim_max ->
  exists a1 b1 a2 b2,
    scale_coordinates self COMPUTER x1 y1 = Ok (a1, b1) /\
    scale_coordinates self COMPUTER x2 y2 = Ok (a2, b2) /\
    0 <= a1 <= a2 /\ 0 <= b1 <= b2.
Proof.
  intros Hw Hh Hx Hx2 Hy Hy2.
  destruct (_scaling_enabled self) eqn:He.
  2:{ exists x1, y1, x2, y2. rewrite !scale_coordinates_disabled by exact He.
      repeat split; lia. }
  assert (Hd : dim_max <= 2 ^ 100) by (vm_compute; discriminate).
  destruct (factors_in_range self Hw Hh)
    as (sx & sy & Hf & _ & _ & [Ha1 Ha2] & [Hb1 Hb2]).
  destruct (int_mul_float_monotone x1 x2 sx Hx ltac:(lia) Ha1 Ha2)
    as (p1 & p2 & Hp1 & Hp2 & Hp).
  destruct (int_mul_float_monotone y1 y2 sy Hy ltac:(lia) Hb1 Hb2)
    as (q1 & q2 & Hq1 & Hq2 & Hq).
  destruct (int_mul_float_accurate x1 sx ltac:(lia) Ha1 Ha2) as (p1' & Hp1' & Hpa & _).
  destruct (int_mul_float_accurate y1 sy ltac:(lia) Hb1 Hb2) as (q1' & Hq1' & Hqa & _).
  assert (p1' = p1) as -> by congruence. assert (q1' = q1) as -> by congruence.
  change (pow2 (-60)) with (1 # 1152921504606846976)%Q in Ha1, Hb1.
  assert (HX : (0 <= inject_Z x1)%Q)
    by (change 0%Q with (inject_Z 0); rewrite <- Zle_Qle; lia).
  assert (HY : (0 <= inject_Z y1)%Q)
    by (change 0%Q with (inject_Z 0); rewrite <- Zle_Qle; lia).
  exists (round_half_even p1), (round_half_even q1),
         (round_half_even p2), (round_half_even q2).
  rewrite !(scale_coordinates_computer self _ _ _ _ He Hf).
  rewrite Hp1, Hp2, Hq1, Hq2. cbn [rbind py_round].
  repeat split; try (apply round_half_even_monotone; assumption);
    apply round_half_even_nonneg; unfold eps in *; nra.
Qed.

Lemma scale_api_monotone_aux (self : ComputerTool) (x1 y1 x2 y2 : Z) :
  1 <= width self <= dim_max -> 1 <= height self <= dim_max ->
  0 <= x1 <= x2 -> x2 <= width self -> 0 <= y1 <= y2 -> y2 <= height self ->
  exists a1 b1 a2 b2,
    scale_coordinates self API x1 y1 = Ok (a1, b1) /\
    scale_coordinates self API x2 y2 = Ok (a2, b2) /\
    0 <= a1 <= a2 /\ 0 <= b1 <= b2.
Proof.
  intros Hw Hh Hx Hx2 Hy Hy2.
  destruct (_scaling_enabled self) eqn:He.
  2:{ exists x1, y1, x2, y2. rewrite !scale_coordinates_disabled by exact He.
      repeat split; lia. }
  assert (Hd : dim_max <= 2 ^ 100) by (vm_compute; discriminate).
  destruct (factors_in_range self Hw Hh)
    as (sx & sy & Hf & _ & _ & [Ha1 Ha2] & [Hb1 Hb2]).
  destruct (int_div_float_monotone x1 x2 sx Hx ltac:(lia) Ha1 Ha2)
    as (p1 & p2 & Hp1 & Hp2 & Hp).
  destruct (int_div_float_monotone y1 y2 sy Hy ltac:(lia) Hb1 Hb2)
    as (q1 & q2 & Hq1 & Hq2 & Hq).
  destruct (int_div_float_accurate x1 sx ltac:(lia) Ha1 Ha2) as (p1' & Hp1' & Hpa & _).
  destruct (int_div_float_accurate y1 sy ltac:(lia) Hb1 Hb2) as (q1' & Hq1' & Hqa & _).
  assert (p1' = p1) as -> by congruence. assert (q1' = q1) as -> by congruence.
  change (pow2 (-60)) with (1 # 1152921504606846976)%Q in Ha1, Hb1.
  assert (HX : (0 <= inject_Z x1)%Q)
    by (change 0%Q with (inject_Z 0); rewrite <- Zle_Qle; lia).
  assert (HY : (0 <= inject_Z y1)%Q)
    by (change 0%Q with (inject_Z 0); rewrite <- Zle_Qle; lia).
  exists (round_half_even p1), (round_half_even q1),
         (round_half_even p2), (round_half_even q2).
  rewrite !(scale_coordinates_api self _ _ _ _ He Hf) by lia.
  rewrite Hp1, Hp2, Hq1, Hq2. cbn [rbind py_round].
  repeat split; try (apply round_half_even_monotone; assumption);
    apply round_half_even_nonneg; unfold eps in *; nra.
Qed.

(** One component of the API-to-computer conversion stays below a bound [b]
    when the coordinate is at most [1200 * b / width]. *)
Lemma api_component_upper (x b : Z) (s W : Q) :
  (0 <= x)%Z -> (inject_Z x <= 281474976710656 # 1)%Q ->
  (1 <= W)%Q -> (W <= 281474976710656 # 1)%Q ->
  (1 <= b)%Z -> (inject_Z b <= 281474976710656 # 1)%Q ->
  (inject_Z x * W <= 1200 * inject_Z b)%Q ->
  (1200 * (1 - 8 * eps) <= s * W)%Q -> (s * W <= 1200 * (1 + 8 * eps))%Q ->
  exists a,
    int_div_float x (Fin s) = Ok (Fin a) /\ (0 <= round_half_even a <= b)%Z.
Proof.
  intros Hx0 Hx1 HW1 HW2 Hb0 Hb1 Hxb Hs1 Hs2.
  assert (HX0 : (0 <= inject_Z x)%Q)
    by (change 0%Q with (inject_Z 0); rewrite <- Zle_Qle; lia).
  assert (HB0 : (1 <= inject_Z b)%Q)
    by (change 1%Q with (inject_Z 1); rewrite <- Zle_Qle; lia).
  destruct (factor_range s W HW1 HW2 Hs1 Hs2) as [Hr1 Hr2].
  assert (Hx2 : (0 <= x <= 2 ^ 100)%Z).
  { split; [exact Hx0 |]. rewrite Zle_Qle.
    change (inject_Z (2 ^ 100)) with (1267650600228229401496703205376 # 1)%Q. lra. }
  destruct (int_div_float_accurate x s Hx2 Hr1 Hr2) as (a & Ha & Ha1 & Ha2).
  change (pow2 (-60)) with (1 # 1152921504606846976)%Q in Hr1.
  set (X := inject_Z x) in *. set (B := inject_Z b) in *.
  assert (Ha0 : (0 <= a)%Q) by (unfold eps in *; nra).
  exists a. split; [exact Ha |]. split; [apply round_half_even_nonneg, Ha0 |].
  destruct (round_half_even_bounds a) as [Hk1 Hk2].
  assert (H1 : (a * s * W <= (1 + eps) * (1 + eps) * X * W)%Q)
    by (apply Qmult_le_compat_r; lra).
  assert (H2 : (1200 * (1 - 8 * eps) * a <= s * W * a)%Q)
    by (apply Qmult_le_compat_r; assumption).
  assert (H3 : (a < B + (1 # 2))%Q) by (unfold eps in *; nra).
  assert (H4 : (inject_Z (round_half_even a) < inject_Z (b + 1))%Q).
  { rewrite inject_Z_plus. change (inject_Z 1) with 1%Q. fold B. lra. }
  rewrite <- Zlt_Qlt in H4. lia.
Qed.

(** X2. The conversion from computer space to API space preserves order: on a
    screen with dimensions in [1, dim_max], of two points with non-negative
    coordinates up to [dim_max], the one further right (further down) is
    converted to a point at least as far right (down); both conversions
    succeed and give non-negative coordinates. *)
Theorem scale_computer_monotone (self : ComputerTool) (x1 y1 x2 y2 : Z) :
  1 <= width self <= dim_max -> 1 <= height self <= dim_max ->
  0 <= x1 <= x2 -> x2 <= dim_max -> 0 <= y1 <= y2 -> y2 <= dim_max ->
  exists a1 b1 a2 b2,
    scale_coordinates self COMPUTER x1 y1 = Ok (a1, b1) /\
    scale_coordinates self COMPUTER x2 y2 = Ok (a2, b2) /\
    0 <= a1 <= a2 /\ 0 <= b1 <= b2.
Proof. apply scale_computer_monotone_aux. Qed.

Lemma scale_computer_monotone_witness :
  (1 <= width default_tool <= dim_max /\ 1 <= height default_tool <= dim_max /\
   0 <= 100 <= 960 /\ 960 <= dim_max /\ 0 <= 100 <= 540 /\ 540 <= dim_max) /\
  exists a1 b1 a2 b2,
    scale_coordinates default_tool COMPUTER 100 100 = Ok (a1, b1) /\
    scale_coordinates default_tool COMPUTER 960 540 = Ok (a2, b2) /\
    0 <= a1 <= a2 /\ 0 <= b1 <= b2.
Proof.
  assert (H : 1 <= width default_tool <= dim_max /\
              1 <= height default_tool <= dim_max /\
              0 <= 100 <= 960 /\ 960 <= dim_max /\ 0 <= 100 <= 540 /\
              540 <= dim_max) by (vm_compute; intuition discriminate).
  split; [exact H |]. destruct H as (H1 & H2 & H3 & H4 & H5 & H6).
  exact (scale_computer_monotone default_tool 100 100 960 540 H1 H2 H3 H4 H5 H6).
Defined.

(** X3. The conversion from API space to computer space preserves order too, for
    points that pass the bound check. *)
Theorem scale_api_monotone (self : ComputerTool) (x1 y1 x2 y2 : Z) :
  1 <= width self <= dim_max -> 1 <= height self <= dim_max ->
  0 <= x1 <= x2 -> x2 <= width self -> 0 <= y1 <= y2 -> y2 <= height self ->
  exists a1 b1 a2 b2,
    scale_coordinates self API x1 y1 = Ok (a1, b1) /\
    scale_coordinates self API x2 y2 = Ok (a2, b2) /\
    0 <= a1 <= a2 /\ 0 <= b1 <= b2.
Proof. apply scale_api_monotone_aux. Qed.

Lemma scale_api_monotone_witness :
  (1 <= width default_tool <= dim_max /\ 1 <= height default_tool <= dim_max /\
   0 <= 100 <= 960 /\ 960 <= width default_tool /\
   0 <= 100 <= 540 /\ 540 <= height default_tool) /\
  exists a1 b1 a2 b2,
    scale_coordinates default_tool API 100 100 = Ok (a1, b1) /\
    scale_coordinates default_tool API 960 540 = Ok (a2, b2) /\
    0 <= a1 <= a2 /\ 0 <= b1 <= b2.
Proof.
  assert (H : 1 <= width default_tool <= dim_max /\
              1 <= height default_tool <= dim_max /\
              0 <= 100 <= 960 /\ 960 <= width default_tool /\
              0 <= 100 <= 540 /\ 540 <= height default_tool) by (vm_compute; intuition discriminate).
  split; [exact H |]. destruct H as (H1 & H2 & H3 & H4 & H5 & H6).
  exact (scale_api_monotone default_tool 100 100 960 540 H1 H2 H3 H4 H5 H6).
Defined.

(** X4. A point of the screen converts into the advertised display: for
    [0 <= x <= width] and [0 <= y <= height] the conversion to API space
    succeeds with [0 <= x' <= display_width_px] and
    [0 <= y' <= display_height_px] of [options]. *)
Theorem pointer_within_advertised_display (self : ComputerTool) (x y : Z) :
  1 <= width self <= dim_max -> 1 <= height self <= dim_max ->
  0 <= x <= width self -> 0 <= y <= height self ->
  exists o x' y',
    options self = Ok o /\
    scale_coordinates self COMPUTER x y = Ok (x', y') /\
    0 <= x' <= display_width_px o /\ 0 <= y' <= display_height_px o.
Proof.
  intros Hw Hh Hx Hy.
  destruct (scale_computer_monotone_aux self x y (width self) (height self))
    as (a1 & b1 & a2 & b2 & H1 & H2 & Ha & Hb); try lia.
  eexists _, a1, b1. split; [| split; [exact H1 |]].
  - unfold options. rewrite H2. reflexivity.
  - cbn. lia.
Qed.

Lemma pointer_within_advertised_display_witness :
  (1 <= width default_tool <= dim_max /\ 1 <= height default_tool <= dim_max /\
   0 <= 960 <= width default_tool /\ 0 <= 540 <= height default_tool) /\
  exists o x' y',
    options default_tool = Ok o /\
    scale_coordinates default_tool COMPUTER 960 540 = Ok (x', y') /\
    0 <= x' <= display_width_px o /\ 0 <= y' <= display_height_px o.
Proof.
  assert (H : 1 <= width default_tool <= dim_max /\
              1 <= height default_tool <= dim_max /\
              0 <= 960 <= width default_tool /\ 0 <= 540 <= height default_tool)
    by (vm_compute; intuition discriminate).
  split; [exact H |]. destruct H as (H1 & H2 & H3 & H4).
  exact (pointer_within_advertised_display default_tool 960 540 H1 H2 H3 H4).
Defined.

(** X5. With scaling enabled, an API point inside the exact API rectangle
    ([x <= IMAGE_MAX_WIDTH] and [y * width <= IMAGE_MAX_WIDTH * height]) that
    passes the bound check is converted to a point of the screen. *)
Theorem api_within_cap_lands_on_screen (self : ComputerTool) (x y : Z) :
  _scaling_enabled self = true ->
  1 <= width self <= dim_max -> 1 <= height self <= dim_max ->
  0 <= x <= IMAGE_MAX_WIDTH -> x <= width self ->
  0 <= y <= height self -> y * width self <= IMAGE_MAX_WIDTH * height self ->
  exists x' y',
    scale_coordinates self API x y = Ok (x', y') /\
    0 <= x' <= width self /\ 0 <= y' <= height self.
Proof.
  intros He Hw Hh Hx Hxw Hy Hyw. unfold IMAGE_MAX_WIDTH in *.
  destruct (scaling_factors_accurate self Hw Hh)
    as (sx & sy & Hf & [Hsx1 Hsx2] & [Hsy1 Hsy2]).
  destruct (inject_Z_dim (width self) Hw) as [HW1 HW2].
  destruct (inject_Z_dim (height self) Hh) as [HH1 HH2].
  assert (Hinj : forall z, z <= dim_max -> (inject_Z z <= 281474976710656 # 1)%Q).
  { intros z Hz. change (281474976710656 # 1)%Q with (inject_Z dim_max).
    rewrite <- Zle_Qle. exact Hz. }
  assert (Hc : 1200 <= dim_max) by (vm_compute; discriminate).
  destruct (api_component_upper x (width self) sx (inject_Z (width self)))
    as (a & Ha & Hra); try assumption; try lia; try (apply Hinj; lia);
    try (unfold eps in *; lra).
  { assert (H : (inject_Z x <= 1200)%Q)
      by (change 1200%Q with (inject_Z 1200); rewrite <- Zle_Qle; lia).
    assert (H0 : (0 <= inject_Z x)%Q)
      by (change 0%Q with (inject_Z 0); rewrite <- Zle_Qle; lia).
    nra. }
  destruct (api_component_upper y (height self) sy (inject_Z (width self)))
    as (b & Hb & Hrb); try assumption; try lia; try (apply Hinj; lia).
  { rewrite <- inject_Z_mult. change 1200%Q with (inject_Z 1200).
    rewrite <- inject_Z_mult, <- Zle_Qle. exact Hyw. }
  exists (round_half_even a), (round_half_even b).
  rewrite (scale_coordinates_api self _ _ x y He Hf) by lia.
  rewrite Ha, Hb. cbn [rbind py_round]. repeat split; lia.
Qed.

Lemma api_within_cap_lands_on_screen_witness :
  (_scaling_enabled default_tool = true /\
   1 <= width default_tool <= dim_max /\ 1 <= height default_tool <= dim_max /\
   0 <= 1200 <= IMAGE_MAX_WIDTH /\ 1200 <= width default_tool /\
   0 <= 675 <= height default_tool /\
   675 * width default_tool <= IMAGE_MAX_WIDTH * height default_tool) /\
  exists x' y',
    scale_coordinates default_tool API 1200 675 = Ok (x', y') /\
    0 <= x' <= width default_tool /\ 0 <= y' <= height default_tool.
Proof.
  assert (H : _scaling_enabled default_tool = true /\
              1 <= width default_tool <= dim_max /\
              1 <= height default_tool <= dim_max /\
              0 <= 1200 <= IMAGE_MAX_WIDTH /\ 1200 <= width default_tool /\
              0 <= 675 <= height default_tool /\
              675 * width default_tool <= IMAGE_MAX_WIDTH * height default_tool)
    by (vm_compute; intuition discriminate).
  split; [exact H |]. destruct H as (H1 & H2 & H3 & H4 & H5 & H6 & H7).
  exact (api_within_cap_lands_on_screen default_tool 1200 675 H1 H2 H3 H4 H5 H6 H7).
Defined.

(** X6. With scaling enabled, an API [x] beyond the cap but not beyond the
    screen's own width passes the bound check and is converted to an [x']
    off the screen, beyond [width]. *)
Theorem api_beyond_cap_lands_off_screen (self : ComputerTool) (x y : Z) :
  _scaling_enabled self = true ->
  1 <= width self <= dim_max -> 1 <= height self <= dim_max ->
  IMAGE_MAX_WIDTH < x <= width self -> 0 <= y <= height self ->
  exists x' y',
    scale_coordinates self API x y = Ok (x', y') /\ width self < x'.
Proof.
  intros He Hw Hh Hx Hy. unfold IMAGE_MAX_WIDTH in *.
  assert (Hd : dim_max <= 2 ^ 100) by (vm_compute; discriminate).
  destruct (factors_in_range self Hw Hh)
    as (sx & sy & Hf & [Hsx1 Hsx2] & _ & [Ha1 Ha2] & [Hb1 Hb2]).
  destruct (inject_Z_dim (width self) Hw) as [HW1 HW2].
  destruct (int_div_float_accurate x sx ltac:(lia) Ha1 Ha2) as (a & Ha & Hal & _).
  destruct (int_div_float_accurate y sy ltac:(lia) Hb1 Hb2) as (b & Hb & _).
  exists (round_half_even a), (round_half_even b).
  rewrite (scale_coordinates_api self _ _ x y He Hf) by lia.
  rewrite Ha, Hb. cbn [rbind py_round]. split; [reflexivity |].
  change (pow2 (-60)) with (1 # 1152921504606846976)%Q in Ha1.
  assert (HX : (1201 <= inject_Z x)%Q)
    by (change 1201%Q with (inject_Z 1201); rewrite <- Zle_Qle; lia).
  assert (HWx : (1201 <= inject_Z (width self))%Q)
    by (change 1201%Q with (inject_Z 1201); rewrite <- Zle_Qle; lia).
  set (X := inject_Z x) in *. set (W := inject_Z (width self)) in *.
  assert (Ha0 : (0 <= a)%Q) by (unfold eps in *; nra).
  assert (H1 : ((1 - eps) * (1 - eps) * X * W <= a * sx * W)%Q)
    by (apply Qmult_le_compat_r; lra).
  assert (H2 : (sx * W * a <= 1200 * (1 + eps) * a)%Q)
    by (apply Qmult_le_compat_r; assumption).
  assert (H3 : ((1 - eps) * (1 - eps) * 1201 * W <= (1 - eps) * (1 - eps) * X * W)%Q).
  { apply Qmult_le_compat_r; [| lra]. unfold eps in *. lra. }
  assert (H4 : (W + (1 # 2) < a)%Q) by (unfold eps in *; nra).
  destruct (round_half_even_bounds a) as [Hk1 Hk2].
  assert (H5 : (inject_Z (width self) < inject_Z (round_half_even a))%Q)
    by (fold W; lra).
  rewrite <- Zlt_Qlt in H5. exact H5.
Qed.

Lemma api_beyond_cap_lands_off_screen_witness :
  (_scaling_enabled default_tool = true /\
   1 <= width default_tool <= dim_max /\ 1 <= height default_tool <= dim_max /\
   IMAGE_MAX_WIDTH < 1500 <= width default_tool /\
   0 <= 700 <= height default_tool) /\
  exists x' y',
    scale_coordinates default_tool API 1500 700 = Ok (x', y') /\
    width default_tool < x'.
Proof.
  assert (H : _scaling_enabled default_tool = true /\
              1 <= width default_tool <= dim_max /\
              1 <= height default_tool <= dim_max /\
              IMAGE_MAX_WIDTH < 1500 <= width default_tool /\
              0 <= 700 <= height default_tool) by (vm_compute; intuition discriminate).
  split; [exact H |]. destruct H as (H1 & H2 & H3 & H4 & H5).
  exact (api_beyond_cap_lands_off_screen default_tool 1500 700 H1 H2 H3 H4 H5).
Defined.

Lemma advertised_size_aux (self : ComputerTool) :
  _scaling_enabled self = true ->
  1 <= width self <= dim_max -> 1 <= height self <= dim_max ->
  exists h,
    scale_coordinates self COMPUTER (width self) (height self)
      = Ok (IMAGE_MAX_WIDTH, h) /\
    (Qabs (inject_Z h - exact_height self)
       <= (1 # 2) + 16 * eps * exact_height self)%Q.
Proof.
  intros He Hw Hh.
  assert (Hd : dim_max <= 2 ^ 100) by (vm_compute; discriminate).
  destruct (factors_in_range self Hw Hh)
    as (sx & sy & Hf & [Hsx1 Hsx2] & [Hsy1 Hsy2] & [Ha1 Ha2] & [Hb1 Hb2]).
  destruct (inject_Z_dim (width self) Hw) as [HW1 HW2].
  destruct (inject_Z_dim (height self) Hh) as [HH1 HH2].
  destruct (int_mul_float_accurate (width self) sx ltac:(lia) Ha1 Ha2)
    as (a & Ha & Hp1 & Hp2).
  destruct (int_mul_float_accurate (height self) sy ltac:(lia) Hb1 Hb2)
    as (b & Hb & Hq1 & Hq2).
  exists (round_half_even b).
  rewrite (scale_coordinates_computer self _ _ _ _ He Hf), Ha, Hb.
  cbn [rbind py_round]. split.
  - f_equal. f_equal.
    apply round_half_even_exact; change (inject_Z IMAGE_MAX_WIDTH) with 1200%Q;
      unfold eps in *; nra.
  - unfold exact_height. change (inject_Z IMAGE_MAX_WIDTH) with 1200%Q.
    set (W := inject_Z (width self)) in *. set (H := inject_Z (height self)) in *.
    assert (HE : (1200 * H / W * W == 1200 * H)%Q) by (field; lra).
    set (E := (1200 * H / W)%Q) in *.
    assert (HE0 : (0 <= E)%Q) by nra.
    change (pow2 (-60)) with (1 # 1152921504606846976)%Q in Hb1.
    assert (H1 : (H * (1200 * (1 - 8 * eps)) <= H * (sy * W))%Q)
      by (rewrite !(Qmult_comm H); apply Qmult_le_compat_r; lra).
    assert (H2 : (H * (sy * W) <= H * (1200 * (1 + 8 * eps)))%Q)
      by (rewrite !(Qmult_comm H); apply Qmult_le_compat_r; lra).
    assert (H3 : ((1 - 8 * eps) * E <= H * sy)%Q) by (unfold eps in *; nra).
    assert (H4 : (H * sy <= (1 + 8 * eps) * E)%Q) by (unfold eps in *; nra).
    destruct (round_half_even_bounds b) as [Hk1 Hk2].
    apply Qabs_Qle_condition. unfold eps in *. split; nra.
Qed.

(** X7. With scaling enabled, on a screen with dimensions in [1, dim_max],
    [options] advertises exactly [IMAGE_MAX_WIDTH] as width, whatever the
    screen's width, and a height within half a pixel (plus a relative 2^-49)
    of the exactly aspect-preserving [IMAGE_MAX_WIDTH * height / width]. *)
Theorem advertised_size (self : ComputerTool) :
  _scaling_enabled self = true ->
  1 <= width self <= dim_max -> 1 <= height self <= dim_max ->
  exists o,
    options self = Ok o /\
    display_width_px o = IMAGE_MAX_WIDTH /\
    (Qabs (inject_Z (display_height_px o) - exact_height self)
       <= (1 # 2) + 16 * eps * exact_height self)%Q.
Proof.
  intros He Hw Hh.
  destruct (advertised_size_aux self He Hw Hh) as (h & Hs & Hb).
  eexists. unfold options. rewrite Hs. cbn [rbind fst snd].
  split; [reflexivity |]. split; [reflexivity | exact Hb].
Qed.

Lemma advertised_size_witness :
  (_scaling_enabled (with_resolution 1366 768) = true /\
   1 <= width (with_resolution 1366 768) <= dim_max /\
   1 <= height (with_resolution 1366 768) <= dim_max) /\
  exists o,
    options (with_resolution 1366 768) = Ok o /\
    display_width_px o = IMAGE_MAX_WIDTH /\
    (Qabs (inject_Z (display_height_px o) - exact_height (with_resolution 1366 768))
       <= (1 # 2) + 16 * eps * exact_height (with_resolution 1366 768))%Q.
Proof.
  assert (H : _scaling_enabled (with_resolution 1366 768) = true /\
              1 <= width (with_resolution 1366 768) <= dim_max /\
              1 <= height (with_resolution 1366 768) <= dim_max) by (vm_compute; intuition discriminate).
  split; [exact H |]. destruct H as (H1 & H2 & H3).
  exact (advertised_size (with_resolution 1366 768) H1 H2 H3).
Defined.

(** X8. On a screen narrower than the cap, with scaling enabled, the advertised
    width itself is out of bounds: converting an API point whose [x] is
    [display_width_px] raises the out-of-bounds [ToolError], because the
    check compares with the screen's own width. *)
Theorem narrow_screen_rejects_advertised_width (self : ComputerTool) (y : Z) :
  _scaling_enabled self = true ->
  1 <= width self < IMAGE_MAX_WIDTH -> 1 <= height self <= dim_max ->
  exists o,
    options self = Ok o /\
    scale_coordinates self API (display_width_px o) y
      = Raise (out_of_bounds (display_width_px o) y).
Proof.
  intros He Hw Hh.
  assert (Hc : IMAGE_MAX_WIDTH <= dim_max) by (vm_compute; discriminate).
  destruct (advertised_size_aux self He ltac:(lia) Hh) as (h & Hs & _).
  eexists. unfold options. rewrite Hs. cbn [rbind fst snd].
  split; [reflexivity |]. cbn [display_width_px].
  destruct (scaling_factors_accurate self ltac:(lia) Hh) as (sx & sy & Hf & _).
  unfold scale_coordinates. rewrite He, Hf. cbn [negb rbind].
  rewrite Z.gtb_ltb. rewrite (proj2 (Z.ltb_lt (width self) IMAGE_MAX_WIDTH)) by lia.
  reflexivity.
Qed.

Lemma narrow_screen_rejects_advertised_width_witness :
  (_scaling_enabled (with_resolution 800 600) = true /\
   1 <= width (with_resolution 800 600) < IMAGE_MAX_WIDTH /\
   1 <= height (with_resolution 800 600) <= dim_max) /\
  exists o,
    options (with_resolution 800 600) = Ok o /\
    scale_coordinates (with_resolution 800 600) API (display_width_px o) 0
      = Raise (out_of_bounds (display_width_px o) 0).
Proof.
  assert (H : _scaling_enabled (with_resolution 800 600) = true /\
              1 <= width (with_resolution 800 600) < IMAGE_MAX_WIDTH /\
              1 <= height (with_resolution 800 600) <= dim_max) by (vm_compute; intuition discriminate).
  split; [exact H |]. destruct H as (H1 & H2 & H3).
  exact (narrow_screen_rejects_advertised_width (with_resolution 800 600) 0 H1 H2 H3).
Defined.

Lemma reverse_component (x b : Z) (s W : Q) :
  (0 <= x <= b)%Z -> (inject_Z b <= 281474976710656 # 1)%Q ->
  (1200 <= W)%Q -> (W <= 281474976710656 # 1)%Q ->
  (1200 * (1 - 8 * eps) <= s * W)%Q -> (s * W <= 1200 * (1 + 8 * eps))%Q ->
  exists p a,
    int_mul_float x (Fin s) = Ok (Fin p) /\
    (0 <= round_half_even p <= b)%Z /\
    int_div_float (round_half_even p) (Fin s) = Ok (Fin a) /\
    (inject_Z 2400 * (inject_Z (round_half_even a) - inject_Z x) <= W + 2400)%Q /\
    (inject_Z 2400 * (inject_Z x - inject_Z (round_half_even a)) <= W + 2400)%Q.
Proof.
  intros Hx Hb HW1 HW2 Hs1 Hs2.
  assert (HX0 : (0 <= inject_Z x)%Q)
    by (change 0%Q with (inject_Z 0); rewrite <- Zle_Qle; lia).
  assert (HXB : (inject_Z x <= inject_Z b)%Q) by (rewrite <- Zle_Qle; lia).
  destruct (factor_range s W ltac:(lra) HW2 Hs1 Hs2) as [Hr1 Hr2].
  assert (Hs0 : (0 < s)%Q) by (unfold eps in *; nra).
  assert (Hslo : (1200 * (1 - 8 * eps) <= s * (281474976710656 # 1))%Q)
    by (unfold eps in *; nra).
  assert (Hshi : (s * 1200 <= 1200 * (1 + 8 * eps))%Q) by (unfold eps in *; nra).
  assert (Hx2 : (0 <= x <= 2 ^ 100)%Z).
  { split; [lia |]. rewrite Zle_Qle.
    change (inject_Z (2 ^ 100)) with (1267650600228229401496703205376 # 1)%Q. lra. }
  destruct (int_mul_float_accurate x s Hx2 Hr1 Hr2) as (p & Hp & Hp1 & Hp2).
  set (X := inject_Z x) in *. set (B := inject_Z b) in *.
  assert (HXs : (X * s <= (281474976710656 # 1) * s)%Q)
    by (apply Qmult_le_compat_r; lra).
  assert (HXs0 : (0 <= X * s)%Q) by (apply Qmult_le_0_compat; lra).
  assert (HXsB : (X * s <= B * s)%Q) by (apply Qmult_le_compat_r; lra).
  assert (HBs : (B * (s * 1200) <= B * (1200 * (1 + 8 * eps)))%Q)
    by (rewrite !(Qmult_comm B); apply Qmult_le_compat_r; lra).
  assert (Hp0 : (0 <= p)%Q) by (unfold eps in *; nra).
  destruct (round_half_even_bounds p) as [Hk1 Hk2].
  pose proof (round_half_even_nonneg p Hp0) as Hk0.
  set (k := round_half_even p) in *. set (K := inject_Z k) in *.
  assert (HK0 : (0 <= K)%Q)
    by (change 0%Q with (inject_Z 0); unfold K; rewrite <- Zle_Qle; lia).
  assert (HpB : (p < B + (1 # 2))%Q) by (unfold eps in *; nra).
  assert (HkB : (k <= b)%Z).
  { assert (H : (K < inject_Z (b + 1))%Q).
    { rewrite inject_Z_plus. fold B. change (inject_Z 1) with 1%Q. lra. }
    unfold K in H. rewrite <- Zlt_Qlt in H. lia. }
  assert (Hk2' : (0 <= k <= 2 ^ 100)%Z).
  { split; [exact Hk0 |]. rewrite Zle_Qle. fold K.
    change (inject_Z (2 ^ 100)) with (1267650600228229401496703205376 # 1)%Q. lra. }
  destruct (int_div_float_accurate k s Hk2' Hr1 Hr2) as (a & Ha & Ha1 & Ha2).
  fold K in Ha1, Ha2.
  exists p, a. split; [exact Hp |]. split; [split; assumption |].
  split; [exact Ha |].
  destruct (round_half_even_bounds a) as [Hj1 Hj2].
  set (J := inject_Z (round_half_even a)) in *.
  assert (Hjs1 : ((a - (1 # 2)) * s <= J * s)%Q)
    by (apply Qmult_le_compat_r; lra).
  assert (Hjs2 : (J * s <= (a + (1 # 2)) * s)%Q)
    by (apply Qmult_le_compat_r; lra).
  change (inject_Z 2400) with 2400%Q.
  split; apply (proj1 (Qmult_le_r _ _ s Hs0)); unfold eps in *; lra.
Qed.

Lemma scaled_gap_to_Z (j x w : Z) :
  (inject_Z 2400 * (inject_Z j - inject_Z x) <= inject_Z w + 2400)%Q ->
  2400 * (j - x) <= w + 2400.
Proof.
  intros H. rewrite Zle_Qle, inject_Z_mult, inject_Z_plus.
  unfold Z.sub. rewrite inject_Z_plus, inject_Z_opp.
  change (inject_Z 2400) with 2400%Q in *. exact H.
Qed.

(** X9. On a screen at least as wide as the cap, with dimensions up to
    [dim_max], converting a point of the screen to API space and back
    succeeds (the API point passes the bound check) and returns a point
    within [width / 2400 + 1] pixels of the original on each axis. *)
Theorem reverse_roundtrip_close (self : ComputerTool) (x y : Z) :
  IMAGE_MAX_WIDTH <= width self <= dim_max -> 1 <= height self <= dim_max ->
  0 <= x <= width self -> 0 <= y <= height self ->
  exists x' y',
    reverse_roundtrip self x y = Ok (x', y') /\
    2400 * Z.abs (x' - x) <= width self + 2400 /\
    2400 * Z.abs (y' - y) <= width self + 2400.
Proof.
  intros Hw Hh Hx Hy. unfold IMAGE_MAX_WIDTH in Hw.
  destruct (_scaling_enabled self) eqn:He.
  2:{ exists x, y. unfold reverse_roundtrip.
      rewrite !scale_coordinates_disabled by exact He. cbn [rbind fst snd].
      rewrite scale_coordinates_disabled by exact He.
      split; [reflexivity |]. rewrite !Z.sub_diag. cbn. lia. }
  destruct (scaling_factors_accurate self ltac:(lia) Hh)
    as (sx & sy & Hf & [Hsx1 Hsx2] & [Hsy1 Hsy2]).
  destruct (inject_Z_dim (width self) ltac:(lia)) as [_ HW2].
  destruct (inject_Z_dim (height self) Hh) as [_ HH2].
  assert (HW1 : (1200 <= inject_Z (width self))%Q).
  { change 1200%Q with (inject_Z 1200). rewrite <- Zle_Qle. lia. }
  destruct (reverse_component x (width self) sx (inject_Z (width self)))
    as (px & ax & Hpx & Hkx & Hax & Hx1 & Hx2); try assumption;
    try (unfold eps in *; lra).
  destruct (reverse_component y (height self) sy (inject_Z (width self)))
    as (py & ay & Hpy & Hky & Hay & Hy1 & Hy2); try assumption.
  exists (round_half_even ax), (round_half_even ay). split.
  - unfold reverse_roundtrip.
    rewrite (scale_coordinates_computer self _ _ _ _ He Hf).
    rewrite Hpx, Hpy. cbn [rbind py_round fst snd].
    rewrite (scale_coordinates_api self _ _ _ _ He Hf) by lia.
    rewrite Hax, Hay. reflexivity.
  - apply scaled_gap_to_Z in Hx1, Hx2, Hy1, Hy2. lia.
Qed.

Lemma reverse_roundtrip_close_witness :
  (IMAGE_MAX_WIDTH <= width default_tool <= dim_max /\
   1 <= height default_tool <= dim_max /\
   0 <= 1919 <= width default_tool /\ 0 <= 1079 <= height default_tool) /\
  exists x' y',
    reverse_roundtrip default_tool 1919 1079 = Ok (x', y') /\
    2400 * Z.abs (x' - 1919) <= width default_tool + 2400 /\
    2400 * Z.abs (y' - 1079) <= width default_tool + 2400.
Proof.
  assert (H : IMAGE_MAX_WIDTH <= width default_tool <= dim_max /\
              1 <= height default_tool <= dim_max /\
              0 <= 1919 <= width default_tool /\
              0 <= 1079 <= height default_tool) by (vm_compute; intuition discriminate).
  split; [exact H |]. destruct H as (H1 & H2 & H3 & H4).
  exact (reverse_roundtrip_close default_tool 1919 1079 H1 H2 H3 H4).
Defined.

(** ** [chunks] *)

Example chunks_of_seven :
  chunks "abcdefg" 3 = Ok ["abc"; "def"; "g"].
Proof. reflexivity. Qed.

Example chunks_of_nothing : chunks "" 3 = Ok [].
Proof. reflexivity. Qed.

Example chunks_exact_multiple : chunks "abcdef" 3 = Ok ["abc"; "def"].
Proof. reflexivity. Qed.

Lemma substring_clip (s : string) (a b : nat) :
  substring a b s = substring a (Nat.min b (String.length s - a)) s.
Proof.
  revert a b. induction s as [| c s IH]; intros a b.
  - destruct a, b; reflexivity.
  - destruct a as [| a].
    + destruct b as [| b]; [reflexivity |]. cbn [substring String.length Nat.sub].
      rewrite (IH 0%nat b). rewrite Nat.sub_0_r.
      replace (Nat.min (S b) (S (String.length s)))
        with (S (Nat.min b (String.length s))) by lia.
      reflexivity.
    + cbn [substring String.length]. rewrite (IH a b).
      replace (S (String.length s) - S a)%nat with (String.length s - a)%nat by lia.
      reflexivity.
Qed.

Lemma length_substring (s : string) (a b : nat) :
  String.length (substring a b s) = Nat.min b (String.length s - a).
Proof.
  revert a b. induction s as [| c s IH]; intros a b.
  - destruct a, b; cbn; lia.
  - destruct a as [| a].
    + destruct b as [| b]; [reflexivity |]. cbn [substring String.length].
      rewrite (IH 0%nat b). lia.
    + cbn [substring String.length]. rewrite (IH a b). lia.
Qed.

Lemma substring_split (s : string) (a b c : nat) :
  substring a (b + c) s = (substring a b s ++ substring (a + b) c s)%string.
Proof.
  revert a b. induction s as [| ch s IH]; intros a b.
  - destruct a, b, c; reflexivity.
  - destruct a as [| a].
    + destruct b as [| b].
      * reflexivity.
      * cbn [Nat.add substring]. rewrite (IH 0%nat b). reflexivity.
    + cbn [Nat.add substring]. apply IH.
Qed.

Lemma substring_whole (s : string) (b : nat) :
  (String.length s <= b)%nat -> substring 0 b s = s.
Proof.
  revert b. induction s as [| c s IH]; intros b Hb.
  - destruct b; reflexivity.
  - destruct b as [| b]; [cbn in Hb; lia |].
    cbn [substring]. rewrite IH by (cbn in Hb; lia). reflexivity.
Qed.

Lemma substring_none (s : string) (a : nat) : substring a 0 s = EmptyString.
Proof.
  revert a. induction s as [| c s IH]; intros a; destruct a; cbn; auto.
Qed.

Lemma flatten_substrings (s : string) (n m a : nat) :
  flatten (map (fun k => substring (a + k * n) n s) (seq 0 m))
  = substring a (m * n) s.
Proof.
  revert a. induction m as [| m IH]; intros a.
  - cbn. now rewrite substring_none.
  - cbn [seq map flatten fold_right]. rewrite <- seq_shift, map_map.
    cbn [Nat.mul]. rewrite substring_split. rewrite Nat.add_0_r. f_equal.
    rewrite <- (IH (a + n)%nat). unfold flatten. f_equal.
    apply map_ext. intros k. f_equal. lia.
Qed.

(** With a positive size the chunks are the successive substrings of that
    length. *)
Lemma chunks_positive (s : string) (n : Z) :
  0 < n ->
  chunks s n =
    Ok (map (fun k => substring (k * Z.to_nat n) (Z.to_nat n) s)
            (seq 0 (Z.to_nat ((len s + n - 1) / n)))).
Proof.
  intros Hn. unfold chunks, range.
  rewrite (proj2 (Z.eqb_neq n 0)) by lia.
  rewrite (proj2 (Z.ltb_lt 0 n)) by lia.
  cbn [rbind]. rewrite map_map. f_equal.
  replace (len s - 0 + n - 1) with (len s + n - 1) by lia.
  apply map_ext_in. intros k Hk. apply in_seq in Hk.
  pose proof (Z.mul_div_le (len s + n - 1) n Hn) as Hq.
  assert (Hlen : 0 <= len s) by (unfold len; lia).
  assert (Hq0 : 0 <= (len s + n - 1) / n) by (apply Z.div_pos; lia).
  assert (Hkn : Z.of_nat k * n < len s) by nia.
  unfold slice.
  rewrite (proj2 (Z.ltb_ge (0 + Z.of_nat k * n) 0)) by nia.
  rewrite (proj2 (Z.ltb_ge (0 + Z.of_nat k * n + n) 0)) by nia.
  rewrite (Z.min_l (0 + Z.of_nat k * n)) by lia.
  rewrite (proj2 (Z.ltb_lt _ _)) by lia.
  rewrite (substring_clip s (k * Z.to_nat n)). f_equal.
  - nia.
  - unfold len in *. nia.
Qed.

(** X10. For a positive [chunk_size], [chunks] returns pieces whose concatenation
    is the string it was given: nothing is lost or reordered. *)
Theorem chunks_concat (s : string) (n : Z) :
  0 < n -> exists l, chunks s n = Ok l /\ flatten l = s.
Proof.
  intros Hn. eexists. split; [apply chunks_positive, Hn |].
  rewrite (flatten_substrings s (Z.to_nat n) _ 0).
  apply substring_whole.
  pose proof (Z.mul_div_le (len s + n - 1) n Hn) as Hq.
  pose proof (Z.mod_pos_bound (len s + n - 1) n Hn) as Hm.
  pose proof (Z.div_mod (len s + n - 1) n ltac:(lia)) as Hd.
  assert (Hq0 : 0 <= (len s + n - 1) / n) by (apply Z.div_pos; unfold len; lia).
  unfold len in *. nia.
Qed.

Lemma chunks_concat_witness :
  0 < 3 /\ exists l, chunks "abcdefg" 3 = Ok l /\ flatten l = "abcdefg".
Proof.
  assert (H : 0 < 3) by reflexivity.
  split; [exact H |]. exact (chunks_concat "abcdefg" 3 H).
Defined.

(** X11. For a positive [chunk_size], [chunks] returns
    [ceil(len(s) / chunk_size)] pieces, none empty, the [k]-th of length
    [min(chunk_size, len(s) - k * chunk_size)]: every piece but the last has
    exactly [chunk_size] characters, and the empty string gives no piece. *)
Theorem chunks_sizes (s : string) (n : Z) :
  0 < n ->
  exists l,
    chunks s n = Ok l /\
    Z.of_nat (List.length l) = (len s + n - 1) / n /\
    forall k c, nth_error l k = Some c ->
      0 < len c /\ len c = Z.min n (len s - Z.of_nat k * n).
Proof.
  intros Hn. eexists. split; [apply chunks_positive, Hn |].
  assert (Hq0 : 0 <= (len s + n - 1) / n) by (apply Z.div_pos; unfold len; lia).
  split; [rewrite length_map, length_seq; lia |].
  intros k c Hc.
  assert (Hk : (k < Z.to_nat ((len s + n - 1) / n))%nat).
  { assert (Hs : nth_error
      (map (fun k => substring (k * Z.to_nat n) (Z.to_nat n) s)
         (seq 0 (Z.to_nat ((len s + n - 1) / n)))) k <> None) by congruence.
    apply nth_error_Some in Hs. now rewrite length_map, length_seq in Hs. }
  rewrite nth_error_map, nth_error_seq in Hc.
  destruct (Nat.ltb_spec k (Z.to_nat ((len s + n - 1) / n))) as [_ | Hge]; [| lia].
  cbn in Hc. injection Hc as <-.
  pose proof (Z.mul_div_le (len s + n - 1) n Hn) as Hq.
  unfold len in *. rewrite length_substring. nia.
Qed.

Lemma chunks_sizes_witness :
  0 < 3 /\
  exists l,
    chunks "abcdefg" 3 = Ok l /\
    Z.of_nat (List.length l) = (len "abcdefg" + 3 - 1) / 3 /\
    forall k c, nth_error l k = Some c ->
      0 < len c /\ len c = Z.min 3 (len "abcdefg" - Z.of_nat k * 3).
Proof.
  assert (H : 0 < 3) by reflexivity.
  split; [exact H |]. exact (chunks_sizes "abcdefg" 3 H).
Defined.

(** X12. [chunks] with [chunk_size] 0 raises [ValueError] (the step of [range]),
    and with a negative [chunk_size] returns the empty list, whatever the
    string: the text is dropped without an error. *)
Theorem chunks_nonpositive (s : string) (n : Z) :
  (n = 0 -> chunks s n = Raise ValueError) /\
  (n < 0 -> chunks s n = Ok []).
Proof.
  split.
  - intros ->. reflexivity.
  - intros Hn. unfold chunks, range.
    rewrite (proj2 (Z.eqb_neq n 0)) by lia.
    rewrite (proj2 (Z.ltb_ge 0 n)) by lia.
    assert (Hq : (0 - len s - n - 1) / - n <= 0).
    { assert (Hlen : 0 <= len s) by (unfold len; lia).
      destruct (Z_le_gt_dec ((0 - len s - n - 1) / - n) 0) as [H | H]; [exact H |].
      pose proof (Z.mul_div_le (0 - len s - n - 1) (- n) ltac:(lia)). nia. }
    replace (Z.to_nat ((0 - len s - n - 1) / - n)) with 0%nat by lia.
    reflexivity.
Qed.

Lemma chunks_nonpositive_witness :
  (0 = 0 /\ -2 < 0) /\
  chunks "abc" 0 = Raise ValueError /\ chunks "abc" (-2) = Ok [].
Proof.
  assert (H1 : 0 = 0) by reflexivity.
  assert (H2 : -2 < 0) by reflexivity.
  split; [exact (conj H1 H2) |].
  exact (conj (proj1 (chunks_nonpositive "abc" 0) H1)
              (proj2 (chunks_nonpositive "abc" (-2)) H2)).
Defined.

(** ** [__init__] *)

(** X13. Whatever the environment and the outcome of [int], an instance that
    [__init__] builds has a non-zero width and a non-zero height, scaling
    enabled, a screenshot delay of 2.0, and a display number exactly when
    DISPLAY_NUM is set. *)
Theorem init_establishes_dimensions
  (getenv : string -> option string) (int_of_str : string -> result Z)
  (tool : ComputerTool) :
  __init__ getenv int_of_str = Built tool ->
  width tool <> 0 /\ height tool <> 0 /\
  _scaling_enabled tool = true /\ _screenshot_delay tool = Fin 2 /\
  (display_num tool = None <-> getenv "DISPLAY_NUM" = None).
Proof.
  unfold __init__. intros H.
  destruct (int_of_env_or getenv int_of_str "WIDTH" 1920) as [w | e];
    [| discriminate H].
  destruct (int_of_env_or getenv int_of_str "HEIGHT" 1080) as [h | e];
    [| discriminate H].
  destruct (Z.eqb_spec w 0) as [| Hw]; [discriminate H |].
  destruct (Z.eqb_spec h 0) as [| Hh]; [discriminate H |].
  cbn [orb] in H.
  destruct (getenv "DISPLAY_NUM") as [d |].
  - destruct (int_of_str d) as [n | e]; [| discriminate H].
    injection H as <-. cbn. repeat split; try assumption; discriminate.
  - injection H as <-. cbn. repeat split; assumption.
Qed.

Lemma init_establishes_dimensions_witness :
  __init__ no_environment refuse_all = Built default_tool /\
  width default_tool <> 0 /\ height default_tool <> 0 /\
  _scaling_enabled default_tool = true /\
  _screenshot_delay default_tool = Fin 2 /\
  (display_num default_tool = None <-> no_environment "DISPLAY_NUM" = None).
Proof.
  assert (H : __init__ no_environment refuse_all = Built default_tool)
    by reflexivity.
  split; [exact H |].
  exact (init_establishes_dimensions no_environment refuse_all default_tool H).
Defined.

(** X14. With WIDTH and HEIGHT each unset or empty and DISPLAY_NUM unset,
    [__init__] builds the 1920x1080 instance without a display number, and
    never calls [int] on a string. *)
Theorem init_defaults
  (getenv : string -> option string) (int_of_str : string -> result Z) :
  getenv "WIDTH" = None \/ getenv "WIDTH" = Some "" ->
  getenv "HEIGHT" = None \/ getenv "HEIGHT" = Some "" ->
  getenv "DISPLAY_NUM" = None ->
  __init__ getenv int_of_str = Built default_tool.
Proof.
  intros Hw Hh Hd. unfold __init__, int_of_env_or.
  destruct Hw as [-> | ->]; destruct Hh as [-> | ->]; rewrite Hd; reflexivity.
Qed.

Lemma init_defaults_witness :
  ((no_environment "WIDTH" = None \/ no_environment "WIDTH" = Some "") /\
   (no_environment "HEIGHT" = None \/ no_environment "HEIGHT" = Some "") /\
   no_environment "DISPLAY_NUM" = None) /\
  __init__ no_environment refuse_all = Built default_tool.
Proof.
  assert (H1 : no_environment "WIDTH" = None \/ no_environment "WIDTH" = Some "")
    by (left; reflexivity).
  assert (H2 : no_environment "HEIGHT" = None \/ no_environment "HEIGHT" = Some "")
    by (left; reflexivity).
  assert (H3 : no_environment "DISPLAY_NUM" = None) by reflexivity.
  split; [exact (conj H1 (conj H2 H3)) |].
  exact (init_defaults no_environment refuse_all H1 H2 H3).
Defined.

(** X15. An empty DISPLAY_NUM is not treated like an empty WIDTH: it is passed
    to [int], so when [int] rejects the empty string [__init__] builds no
    instance. *)
Theorem init_empty_display_num_fails
  (getenv : string -> option string) (int_of_str : string -> result Z)
  (e : exn) :
  getenv "DISPLAY_NUM" = Some "" ->
  int_of_str "" = Raise e ->
  forall tool, __init__ getenv int_of_str <> Built tool.
Proof.
  intros Hd Hi tool. unfold __init__.
  destruct (int_of_env_or getenv int_of_str "WIDTH" 1920) as [w | e1];
    [| discriminate].
  destruct (int_of_env_or getenv int_of_str "HEIGHT" 1080) as [h | e2];
    [| discriminate].
  destruct ((w =? 0)%Z || (h =? 0)%Z); [discriminate |].
  rewrite Hd, Hi. discriminate.
Qed.

Lemma init_empty_display_num_fails_witness :
  (empty_display_num "DISPLAY_NUM" = Some "" /\ refuse_all "" = Raise ValueError) /\
  forall tool, __init__ empty_display_num refuse_all <> Built tool.
Proof.
  assert (H1 : empty_display_num "DISPLAY_NUM" = Some "") by reflexivity.
  assert (H2 : refuse_all "" = Raise ValueError) by reflexivity.
  split; [exact (conj H1 H2) |].
  exact (init_empty_display_num_fails empty_display_num refuse_all ValueError H1 H2).
Defined.

(** ** The dispatcher and the desktop *)

Lemma quiet_ret {A} (a : A) : quiet (ret a).
Proof. intros w. cbn. repeat split. exists []. now rewrite app_nil_r. Qed.

Lemma quiet_raise {A} (e : exn) : quiet (@raise A e).
Proof. intros w. cbn. repeat split. exists []. now rewrite app_nil_r. Qed.

Lemma quiet_lift {A} (r : result A) : quiet (lift r).
Proof. intros w. cbn. repeat split. exists []. now rewrite app_nil_r. Qed.

Lemma quiet_call (e : event) : quiet (call e).
Proof. intros w. cbn. repeat split. now exists [e]. Qed.

Lemma quiet_bind {A B} (m : M A) (k : A -> M B) :
  quiet m -> (forall a, quiet (k a)) -> quiet (bind m k).
Proof.
  intros Hm Hk w. unfold bind. specialize (Hm w).
  destruct (m w) as [[a | e] w1]; cbn [snd] in *.
  - destruct Hm as (H1 & H2 & H3 & l1 & H4).
    destruct (Hk a w1) as (K1 & K2 & K3 & l2 & K4).
    rewrite K1, K2, K3, K4, H1, H2, H3, H4. repeat split.
    exists (l1 ++ l2)%list. now rewrite app_assoc.
  - exact Hm.
Qed.


Lemma framed_bind_quiet {A B} (m : M A) (k : A -> M B) :
  quiet m -> (forall a, framed (k a)) -> framed (bind m k).
Proof.
  intros Hm Hk w. unfold bind. specialize (Hm w).
  destruct (m w) as [[a | e] w1]; cbn [snd] in *.
  - destruct Hm as (H1 & H2 & H3 & l1 & H4).
    destruct (Hk a w1) as (K1 & K2 & K3 & l2 & K4).
    rewrite K1, K2, K4, H1, H2, H4. rewrite H3 in K3. repeat split; try lia.
    exists (l1 ++ l2)%list. now rewrite app_assoc.
  - destruct Hm as (H1 & H2 & H3 & H4). rewrite H1, H2, H3.
    repeat split; [lia | lia | exact H4].
Qed.

Lemma framed_bind_then_quiet {A B} (m : M A) (k : A -> M B) :
  framed m -> (forall a, quiet (k a)) -> framed (bind m k).
Proof.
  intros Hm Hk w. unfold bind. specialize (Hm w).
  destruct (m w) as [[a | e] w1]; cbn [snd] in *.
  - destruct Hm as (H1 & H2 & H3 & l1 & H4).
    destruct (Hk a w1) as (K1 & K2 & K3 & l2 & K4).
    rewrite K1, K2, K3, K4, H1, H2, H4. repeat split; try lia.
    exists (l1 ++ l2)%list. now rewrite app_assoc.
  - exact Hm.
Qed.

(** The last step of [screenshot]: look for the file of this capture. *)
Lemma framed_screenshot (self : ComputerTool) : framed (screenshot self).
Proof.
  unfold screenshot. apply framed_bind_quiet; [apply quiet_call | intros _].
  apply framed_bind_quiet.
  { destruct (_scaling_enabled self); [| apply quiet_ret].
    apply quiet_bind; [apply quiet_lift | intros xy; apply quiet_call]. }
  intros _. apply framed_bind_quiet; [apply quiet_call | intros _].
  intros w. destruct (stored w (captures w)); cbn; repeat split; try lia;
    exists []; now rewrite app_nil_r.
Qed.

Lemma framed_take_action_screenshot (self : ComputerTool) :
  framed (take_action_screenshot self).
Proof.
  unfold take_action_screenshot.
  apply framed_bind_quiet; [apply quiet_call | intros _].
  apply framed_bind_then_quiet; [apply framed_screenshot | intros r; apply quiet_ret].
Qed.

Lemma quiet_reading_position {A} (k : Z -> Z -> M A) :
  (forall x y, quiet (k x y)) ->
  quiet (fun w => let (x, y) := position w in k x y w).
Proof.
  intros Hk w. cbv beta. destruct (position w) as [x y] eqn:E.
  rewrite <- E. apply Hk.
Qed.

Ltac quiet_tac :=
  repeat first
    [ apply quiet_ret | apply quiet_raise | apply quiet_lift | apply quiet_call
    | apply quiet_reading_position; intros ? ?
    | apply quiet_bind; [| intros ?] ].




Lemma imaging_raise (e : exn) : imaging (raise e).
Proof. intros w r w' H. discriminate H. Qed.

Lemma imaging_bind_quiet {A} (m : M A) (k : A -> M ToolResult) :
  quiet m -> (forall a, imaging (k a)) -> imaging (bind m k).
Proof.
  intros Hm Hk w r w' H. unfold bind in H. specialize (Hm w).
  destruct (m w) as [[a | e] w1]; cbn [snd] in *; [| discriminate H].
  destruct Hm as (_ & H2 & H3 & _).
  destruct (Hk a w1 r w' H) as (K1 & K2 & K3 & K4).
  rewrite H2, H3 in *. repeat split; assumption.
Qed.

Lemma imaging_screenshot (self : ComputerTool) : imaging (screenshot self).
Proof.
  unfold screenshot. apply imaging_bind_quiet; [apply quiet_call | intros _].
  apply imaging_bind_quiet.
  { destruct (_scaling_enabled self); [| apply quiet_ret].
    apply quiet_bind; [apply quiet_lift | intros xy; apply quiet_call]. }
  intros _. apply imaging_bind_quiet; [apply quiet_call | intros _].
  intros w r w' H. destruct (stored w (captures w)) as [image |] eqn:E;
    [| discriminate H].
  injection H as <- <-. cbn. repeat split. discriminate.
Qed.

Lemma imaging_take_action_screenshot (self : ComputerTool) :
  imaging (take_action_screenshot self).
Proof.
  unfold take_action_screenshot.
  apply imaging_bind_quiet; [apply quiet_call | intros _].
  intros w r w' H. unfold bind in H.
  destruct (screenshot self w) as [[r1 | e] w1] eqn:E; [| discriminate H].
  cbn in H. injection H as <- <-.
  destruct (imaging_screenshot self w r1 w1 E) as (K1 & K2 & K3 & K4).
  cbn. repeat split; assumption.
Qed.

Lemma shaped_imaging (action : string) (m : M ToolResult) :
  imaging m -> shaped action m.
Proof. intros Hm w r w' H. right. exact (Hm w r w' H). Qed.

Ltac imaging_tac :=
  first
    [ apply imaging_take_action_screenshot
    | apply imaging_screenshot
    | apply imaging_raise
    | apply imaging_bind_quiet; [solve [quiet_tac] | intros ?; imaging_tac] ].

Ltac split_branches_eqn :=
  repeat match goal with
    | |- context [if ?b then _ else _] => destruct b eqn:?
    | |- context [match ?t with PStr _ => _ | _ => _ end] => destruct t
    end.

(** A branch entered through a membership test that no comparison of the
    branch satisfies. *)
Ltac unreachable_branch :=
  cbn [existsb] in *;
  repeat match goal with
    | E : (_ =? _)%string = false |- _ => rewrite E in *; clear E
    end;
  discriminate.

(** X18. A call that returns a result returns either a text and no image,
    which happens only for [cursor_position] and leaves the desktop
    untouched, or no text and the image of exactly one new capture. *)
Theorem call_returns_text_or_image
  (self : ComputerTool) (action : string) (text coordinate : pyval)
  (w w' : world) (r : ToolResult) :
  __call__ self action text coordinate w = (Ok r, w') ->
  (action = "cursor_position" /\ base64_image r = None /\
   (exists s, output r = Some s) /\ w' = w) \/
  (output r = None /\ base64_image r = stored w (captures w) /\
   base64_image r <> None /\ captures w' = S (captures w)).
Proof.
  revert w r w'. change (shaped action (__call__ self action text coordinate)).
  unfold __call__, call_text, call_bare, invalid_action.
  split_branches_eqn; try (apply shaped_imaging; imaging_tac).
  all: try solve [exfalso; unreachable_branch].
  all: intros w r w' H; left.
  all: match goal with
       | E : (_ =? "cursor_position") = true |- _ => apply String.eqb_eq in E
       end.
  all: split; [assumption |].
  all: cbv beta in H; destruct (position w) as [x y]; unfold bind, lift in H.
  all: destruct (scale_coordinates self COMPUTER x y) as [[sx sy] | e];
       [| discriminate H].
  all: cbn in H; injection H as <- <-; cbn; repeat split; eexists; reflexivity.
Qed.

Lemma call_returns_text_or_image_witness :
  let r := {| output := None; base64_image := Some "aW1hZ2U=" |} in
  let w' := {| position := (960, 540); stored := stored a_world; captures := 1;
               events := [click; sleep (Fin 2); grab; resize 1200 675; save] |} in
  __call__ default_tool "left_click" PNone PNone a_world = (Ok r, w') /\
  ((("left_click" = "cursor_position" /\ base64_image r = None /\
     (exists s, output r = Some s) /\ w' = a_world)) \/
   (output r = None /\ base64_image r = stored a_world (captures a_world) /\
    base64_image r <> None /\ captures w' = S (captures a_world))).
Proof.
  cbv zeta.
  assert (H : __call__ default_tool "left_click" PNone PNone a_world =
              (Ok {| output := None; base64_image := Some "aW1hZ2U=" |},
               {| position := (960, 540); stored := stored a_world; captures := 1;
                  events := [click; sleep (Fin 2); grab; resize 1200 675; save] |}))
    by (vm_compute; reflexivity).
  split; [exact H |].
  exact (call_returns_text_or_image default_tool "left_click" PNone PNone
           a_world _ _ H).
Defined.

Lemma in_group (action : string) (group : list string) :
  In action group -> existsb (String.eqb action) group = true.
Proof.
  intros H. apply existsb_exists. exists action. split; [exact H |].
  apply String.eqb_refl.
Qed.



(** X17. A click, [screenshot] or [cursor_position] call raises a [ToolError],
    with nothing done on the desktop, whenever a text or a coordinate is
    supplied. *)
Theorem bare_actions_reject_fields
  (self : ComputerTool) (w : world) (action : string) (text coordinate : pyval) :
  In action ["left_click"; "right_click"; "double_click"; "middle_click";
             "screenshot"; "cursor_position"] ->
  text <> PNone \/ coordinate <> PNone ->
  exists message,
    __call__ self action text coordinate w = (Raise (ToolError message), w).
Proof.
  intros Ha Hbad. unfold __call__, call_text, call_bare.
  rewrite (not_in_group action ["mouse_move"; "left_click_drag"])
    by (cbn in Ha; cbn; intuition (subst; discriminate)).
  rewrite (not_in_group action ["key"; "type"])
    by (cbn in Ha; cbn; intuition (subst; discriminate)).
  rewrite (in_group _ _ Ha).
  destruct text; try (eexists; reflexivity);
    destruct coordinate; try (eexists; reflexivity).
  destruct Hbad as [H | H]; contradiction.
Qed.

Lemma bare_actions_reject_fields_witness :
  (In "screenshot" ["left_click"; "right_click"; "double_click"; "middle_click";
                    "screenshot"; "cursor_position"] /\
   (PStr "x" <> PNone \/ PNone <> PNone)) /\
  exists message,
    __call__ default_tool "screenshot" (PStr "x") PNone a_world
    = (Raise (ToolError message), a_world).
Proof.
  assert (H1 : In "screenshot" ["left_click"; "right_click"; "double_click";
                                "middle_click"; "screenshot"; "cursor_position"])
    by (do 4 right; now left).
  assert (H2 : PStr "x" <> PNone \/ PNone <> PNone) by (left; discriminate).
  split; [exact (conj H1 H2) |].
  exact (bare_actions_reject_fields default_tool a_world "screenshot" (PStr "x")
           PNone H1 H2).
Defined.

Lemma take_action_screenshot_without_file (self : ComputerTool) (w : world) :
  stored w (captures w) = None ->
  exists e w',
    take_action_screenshot self w = (Raise e, w') /\
    exists l, events w' = (events w ++ l)%list.
Proof.
  intros Hs.
  destruct (framed_take_action_screenshot self w) as (_ & _ & _ & l & Hl).
  destruct (take_action_screenshot self w) as [[r | e] w'] eqn:E.
  - destruct (imaging_take_action_screenshot self w r w' E) as (_ & K2 & K3 & _).
    rewrite Hs in K2. contradiction.
  - exists e, w'. split; [reflexivity |]. exists l. exact Hl.
Qed.

(** X20. When the capture leaves no file, a click call raises, and the click
    has been made all the same: it is in the log before the exception. *)
Theorem click_precedes_failed_screenshot
  (self : ComputerTool) (w : world) (action : string) (ev : event) :
  In (action, ev) [("left_click", click); ("right_click", rightClick);
                   ("middle_click", middleClick); ("double_click", doubleClick)] ->
  stored w (captures w) = None ->
  exists e w',
    __call__ self action PNone PNone w = (Raise e, w') /\
    exists l, events w' = (events w ++ ev :: l)%list.
Proof.
  intros Ha Hs.
  assert (Hc : __call__ self action PNone PNone w
               = take_action_screenshot self (emit ev w)).
  { destruct Ha as [E | [E | [E | [E | []]]]]; injection E as <- <-; reflexivity. }
  rewrite Hc.
  destruct (take_action_screenshot_without_file self (emit ev w) Hs)
    as (e & w' & H & l & Hl).
  exists e, w'. split; [exact H |]. exists l. rewrite Hl. cbn.
  now rewrite <- app_assoc.
Qed.

Lemma click_precedes_failed_screenshot_witness :
  (In ("left_click", click)
      [("left_click", click); ("right_click", rightClick);
       ("middle_click", middleClick); ("double_click", doubleClick)] /\
   stored a_world_without_files (captures a_world_without_files) = None) /\
  exists e w',
    __call__ default_tool "left_click" PNone PNone a_world_without_files
    = (Raise e, w') /\
    exists l, events w' = (events a_world_without_files ++ click :: l)%list.
Proof.
  assert (H1 : In ("left_click", click)
                 [("left_click", click); ("right_click", rightClick);
                  ("middle_click", middleClick); ("double_click", doubleClick)])
    by (now left).
  assert (H2 : stored a_world_without_files (captures a_world_without_files) = None)
    by reflexivity.
  split; [exact (conj H1 H2) |].
  exact (click_precedes_failed_screenshot default_tool a_world_without_files
           "left_click" click H1 H2).
Defined.

Lemma scale_coordinates_out_of_bounds
  (self : ComputerTool) (f : float * float) (x y : Z) :
  _scaling_enabled self = true -> scaling_factors self = Ok f ->
  x > width self \/ y > height self ->
  scale_coordinates self API x y = Raise (out_of_bounds x y).
Proof.
  intros He Hf Hb. unfold scale_coordinates. rewrite He, Hf. cbn [negb rbind].
  destruct f as [sx sy]. rewrite !Z.gtb_ltb.
  destruct (Z.ltb_spec (width self) x); [reflexivity |].
  destruct (Z.ltb_spec (height self) y); [reflexivity | lia].
Qed.

(** X21. With scaling enabled, a [mouse_move] or [left_click_drag] call whose
    coordinate is a list of two non-negative integers beyond the screen's
    width or height raises the out-of-bounds [ToolError] before anything is
    done: the pointer is not moved and no screenshot is taken. *)
Theorem pointer_action_out_of_bounds_does_nothing
  (self : ComputerTool) (w : world) (action : string) (x y : Z) :
  In action ["mouse_move"; "left_click_drag"] ->
  _scaling_enabled self = true ->
  1 <= width self <= dim_max -> 1 <= height self <= dim_max ->
  0 <= x -> 0 <= y -> x > width self \/ y > height self ->
  __call__ self action PNone (PList [PInt x; PInt y]) w
  = (Raise (out_of_bounds x y), w).
Proof.
  intros Ha He Hw Hh Hx Hy Hb. unfold __call__.
  rewrite (in_group _ _ Ha). cbn [is_None negb is_list_of_two List.length Nat.eqb].
  cbn [items forallb]. unfold is_nonneg_int. cbn [is_int int_value andb].
  rewrite !(proj2 (Z.geb_le _ 0)) by lia. cbn [andb negb].
  destruct (scaling_factors_accurate self Hw Hh) as (sx & sy & Hf & _).
  unfold item, items. cbn [nth int_value]. unfold bind, lift.
  rewrite (scale_coordinates_out_of_bounds self _ x y He Hf Hb). reflexivity.
Qed.

Lemma pointer_action_out_of_bounds_does_nothing_witness :
  (In "mouse_move" ["mouse_move"; "left_click_drag"] /\
   _scaling_enabled default_tool = true /\
   1 <= width default_tool <= dim_max /\ 1 <= height default_tool <= dim_max /\
   0 <= 1921 /\ 0 <= 5 /\
   (1921 > width default_tool \/ 5 > height default_tool)) /\
  __call__ default_tool "mouse_move" PNone (PList [PInt 1921; PInt 5]) a_world
  = (Raise (out_of_bounds 1921 5), a_world).
Proof.
  assert (H1 : In "mouse_move" ["mouse_move"; "left_click_drag"]) by (now left).
  assert (H2 : _scaling_enabled default_tool = true) by reflexivity.
  assert (H3 : 1 <= width default_tool <= dim_max) by (vm_compute; intuition discriminate).
  assert (H4 : 1 <= height default_tool <= dim_max) by (vm_compute; intuition discriminate).
  assert (H5 : 0 <= 1921) by discriminate.
  assert (H6 : 0 <= 5) by discriminate.
  assert (H7 : 1921 > width default_tool \/ 5 > height default_tool)
    by (left; reflexivity).
  split; [exact (conj H1 (conj H2 (conj H3 (conj H4 (conj H5 (conj H6 H7)))))) |].
  exact (pointer_action_out_of_bounds_does_nothing default_tool a_world
           "mouse_move" 1921 5 H1 H2 H3 H4 H5 H6 H7).
Defined.

(** X22. The image a screenshot returns has the advertised size: with scaling
    enabled [screenshot] grabs the screen, resizes it to exactly
    [display_width_px] by [display_height_px] of [options] and saves it;
    with scaling disabled it grabs and saves without resizing. *)
Theorem screenshot_resizes_to_advertised_size
  (self : ComputerTool) (w : world) (o : ComputerToolOptions) :
  options self = Ok o ->
  events (snd (screenshot self w)) =
    (events w ++
     if _scaling_enabled self
     then [grab; resize (display_width_px o) (display_height_px o); save]
     else [grab; save])%list.
Proof.
  intros Ho. unfold options in Ho.
  destruct (scale_coordinates self COMPUTER (width self) (height self))
    as [[a b] | e] eqn:E; [| discriminate Ho].
  cbn in Ho. injection Ho as <-. cbn [display_width_px display_height_px].
  unfold screenshot, bind, call, lift. cbn [emit].
  destruct (_scaling_enabled self).
  - rewrite E. cbn.
    destruct (stored w (captures w)); cbn; now rewrite <- !app_assoc.
  - cbn. destruct (stored w (captures w)); cbn; now rewrite <- !app_assoc.
Qed.

Lemma screenshot_resizes_to_advertised_size_witness :
  let o := {| display_height_px := 675; display_width_px := 1200;
              display_number := None |} in
  options default_tool = Ok o /\
  events (snd (screenshot default_tool a_world)) =
    (events a_world ++
     if _scaling_enabled default_tool
     then [grab; resize (display_width_px o) (display_height_px o); save]
     else [grab; save])%list.
Proof.
  cbv zeta.
  assert (H : options default_tool =
              Ok {| display_height_px := 675; display_width_px := 1200;
                    display_number := None |}) by (vm_compute; reflexivity).
  split; [exact H |].
  exact (screenshot_resizes_to_advertised_size default_tool a_world _ H).
Defined.

(** ** The keys of a chord *)

Lemma lower_char_plus (c : ascii) :
  Ascii.eqb (lower_char c) "+" = Ascii.eqb c "+".
Proof. destruct c as [[] [] [] [] [] [] [] []]; reflexivity. Qed.

Lemma isspace_lower_char (c : ascii) : isspace (lower_char c) = isspace c.
Proof. destruct c as [[] [] [] [] [] [] [] []]; reflexivity. Qed.

Lemma contains_lower (s : string) : contains "+" (lower s) = contains "+" s.
Proof.
  induction s as [| c s IH]; [reflexivity |].
  cbn [lower contains]. now rewrite lower_char_plus, IH.
Qed.

Lemma contains_In (sep : ascii) (s : string) :
  contains sep s = true <-> In sep (list_ascii_of_string s).
Proof.
  induction s as [| c s IH]; cbn [contains list_ascii_of_string In].
  - split; [discriminate | tauto].
  - rewrite orb_true_iff, IH. split; intros [H | H]; auto.
    + left. now apply Ascii.eqb_eq.
    + left. subst. apply Ascii.eqb_refl.
Qed.

Lemma lstrip_chars_incl (l : list ascii) (c : ascii) :
  In c (lstrip_chars l) -> In c l.
Proof.
  induction l as [| d l IH]; [tauto |]. cbn [lstrip_chars].
  destruct (isspace d); [intros H; right; now apply IH | tauto].
Qed.

Lemma contains_strip (sep : ascii) (s : string) :
  contains sep s = false -> contains sep (strip s) = false.
Proof.
  intros H. apply not_true_iff_false. intros Hc. apply not_true_iff_false in H.
  apply H. apply contains_In. apply contains_In in Hc. unfold strip in Hc.
  rewrite list_ascii_of_string_of_list_ascii in Hc.
  apply in_rev, lstrip_chars_incl, in_rev, lstrip_chars_incl in Hc. exact Hc.
Qed.

Lemma lstrip_chars_starts_clean (l : list ascii) : starts_clean (lstrip_chars l).
Proof.
  induction l as [| c l IH]; [exact I |]. cbn [lstrip_chars].
  destruct (isspace c) eqn:E; [exact IH | exact E].
Qed.

Lemma lstrip_chars_clean (l : list ascii) : starts_clean l -> lstrip_chars l = l.
Proof. destruct l as [| c l]; [reflexivity |]. cbn. now intros ->. Qed.

Lemma lstrip_chars_snoc (l : list ascii) (c : ascii) :
  isspace c = false -> lstrip_chars (l ++ [c])%list = (lstrip_chars l ++ [c])%list.
Proof.
  intros Hc. induction l as [| d l IH]; cbn [app lstrip_chars].
  - now rewrite Hc.
  - destruct (isspace d); [exact IH | reflexivity].
Qed.

(** Stripping the end of a list keeps a clean start. *)
Lemma rstrip_keeps_start (l : list ascii) :
  starts_clean l -> starts_clean (rev (lstrip_chars (rev l))).
Proof.
  destruct l as [| c l]; [intros _; exact I |]. cbn [starts_clean rev]. intros Hc.
  rewrite (lstrip_chars_snoc _ _ Hc), rev_app_distr. exact Hc.
Qed.

Lemma strip_chars_idempotent (l : list ascii) :
  let s := rev (lstrip_chars (rev (lstrip_chars l))) in
  rev (lstrip_chars (rev (lstrip_chars s))) = s.
Proof.
  cbv zeta.
  rewrite (lstrip_chars_clean (rev (lstrip_chars (rev (lstrip_chars l)))))
    by (apply rstrip_keeps_start, lstrip_chars_starts_clean).
  rewrite rev_involutive.
  rewrite lstrip_chars_clean by apply lstrip_chars_starts_clean. reflexivity.
Qed.

Lemma strip_idempotent (s : string) : strip (strip s) = strip s.
Proof.
  unfold strip at 1 3. unfold strip.
  rewrite list_ascii_of_string_of_list_ascii.
  now rewrite strip_chars_idempotent.
Qed.

Lemma list_ascii_of_lower (s : string) :
  list_ascii_of_string (lower s) = map lower_char (list_ascii_of_string s).
Proof. induction s as [| c s IH]; [reflexivity |]. cbn. now rewrite IH. Qed.

Lemma string_of_map_lower (l : list ascii) :
  string_of_list_ascii (map lower_char l) = lower (string_of_list_ascii l).
Proof. induction l as [| c l IH]; [reflexivity |]. cbn. now rewrite IH. Qed.

Lemma lstrip_chars_map_lower (l : list ascii) :
  lstrip_chars (map lower_char l) = map lower_char (lstrip_chars l).
Proof.
  induction l as [| c l IH]; [reflexivity |]. cbn [map lstrip_chars].
  rewrite isspace_lower_char. destruct (isspace c); [exact IH | reflexivity].
Qed.

(** Lower-casing and stripping commute. *)
Lemma strip_lower (s : string) : strip (lower s) = lower (strip s).
Proof.
  unfold strip. rewrite list_ascii_of_lower, lstrip_chars_map_lower.
  rewrite <- map_rev, lstrip_chars_map_lower, <- map_rev.
  apply string_of_map_lower.
Qed.

(** X23. For a [key] text containing a [+], [hotkey] is called with at least
    two key names, each free of [+], already lower-cased and already
    stripped: no key name keeps surrounding white space or an upper-case
    ASCII letter. *)
Theorem hotkey_keys_are_normalised (t : string) :
  contains "+" t = true ->
  exists keys,
    key_event t = hotkey keys /\
    (2 <= List.length keys)%nat /\
    Forall normalised keys.
Proof.
  intros H. unfold key_event. rewrite H. eexists. split; [reflexivity |]. split.
  - rewrite length_map, length_split. pose proof (contains_count _ _ H). lia.
  - apply Forall_map, Forall_forall. intros piece Hin. split; [| split].
    + rewrite contains_lower. apply contains_strip.
      apply (split_pieces_free _ _ _ Hin).
    + apply lower_idempotent.
    + rewrite strip_lower, strip_idempotent. reflexivity.
Qed.

Lemma hotkey_keys_are_normalised_witness :
  contains "+" " Ctrl + Shift+c" = true /\
  exists keys,
    key_event " Ctrl + Shift+c" = hotkey keys /\
    (2 <= List.length keys)%nat /\
    Forall normalised keys.
Proof.
  assert (H : contains "+" " Ctrl + Shift+c" = true) by reflexivity.
  split; [exact H |]. exact (hotkey_keys_are_normalised " Ctrl + Shift+c" H).
Defined.
